(** * Resolving the entrypoint and command of a container image

  A shallow embedding of [cmd/vault-secrets-webhook/registry/registry.go].

  Go strings and byte slices are byte sequences: they are [string] here, one
  [ascii] per byte.  The Go library functions the file calls ([strings],
  [unicode/utf8], [encoding/json], [reflect]) are written out from their Go
  sources as far as the file reaches them; what lives outside the process
  (the Kubernetes API, the registry, the environment) is a [World] record,
  and every call that leaves the process is recorded in a trace of events. *)

From Stdlib Require Import String Ascii NArith ZArith Lia.
From stdpp Require Import base option list gmap strings.

(** ** Byte sequences *)

Module Bytes.

Definition val (c : ascii) : N := N_of_ascii c.

Definition byte (n : N) : ascii := ascii_of_N (n mod 256).

(** [lo <= c <= hi] on byte values *)
Definition within (lo hi : N) (c : ascii) : bool :=
  ((lo <=? val c) && (val c <=? hi))%N.

(** [s[:n]] *)
Fixpoint take (n : nat) (s : string) : string :=
  match n, s with
  | S n', String c s' => String c (take n' s')
  | _, _ => ""
  end.

(** [s[n:]] *)
Fixpoint drop (n : nat) (s : string) : string :=
  match n, s with
  | S n', String _ s' => drop n' s'
  | _, _ => s
  end.

Fixpoint elem (c : ascii) (s : string) : bool :=
  match s with
  | "" => false
  | String d s' => Ascii.eqb c d || elem c s'
  end.

(** A left-to-right walk over [s] in steps of one or more bytes: at each
    position [step] sees the state and the text that is left, and either
    stops the walk or gives the next state and the width of what it
    consumed.  The result is the last state and the text not consumed.
    [skip] counts the bytes of the current step still to pass over. *)
Fixpoint scan {A : Type} (step : A → string → option (A * nat))
    (skip : nat) (a : A) (s : string) : A * string :=
  match s with
  | "" => (a, "")
  | String _ t =>
      match skip with
      | S k => scan step k a t
      | O =>
          match step a s with
          | None => (a, s)
          | Some (a', n) => scan step (pred n) a' t
          end
      end
  end.

End Bytes.

(** ** [unicode/utf8] *)

Module utf8.
Import Bytes.

(** A rune is an [int32] in Go; the runes met here are never negative. *)
Definition rune := N.

Definition RuneError : rune := 0xFFFD%N.
Definition RuneSelf : rune := 0x80%N.
Definition MaxRune : rune := 0x10FFFF%N.

(** The table [first] with [acceptRanges]: for a leading byte, the width of
    its sequence and the range its second byte must lie in. *)
Definition first (b0 : ascii) : option (nat * (N * N)) :=
  (if within 0xC2 0xDF b0 then Some (2%nat, (0x80, 0xBF))
   else if within 0xE0 0xE0 b0 then Some (3%nat, (0xA0, 0xBF))
   else if within 0xE1 0xEC b0 then Some (3%nat, (0x80, 0xBF))
   else if within 0xED 0xED b0 then Some (3%nat, (0x80, 0x9F))
   else if within 0xEE 0xEF b0 then Some (3%nat, (0x80, 0xBF))
   else if within 0xF0 0xF0 b0 then Some (4%nat, (0x90, 0xBF))
   else if within 0xF1 0xF3 b0 then Some (4%nat, (0x80, 0xBF))
   else if within 0xF4 0xF4 b0 then Some (4%nat, (0x80, 0x8F))
   else None)%N.

Definition cont (c : ascii) : bool := within 0x80%N 0xBF%N c.

Definition bits (mask : N) (c : ascii) : N := N.land (val c) mask.

(** [utf8.DecodeRuneInString]: the first rune of [s] and its width in bytes;
    [(RuneError, 1)] for an encoding that is not valid, [(RuneError, 0)] for
    the empty string. *)
Definition DecodeRuneInString (s : string) : rune * nat :=
  match s with
  | "" => (RuneError, 0)
  | String s0 t =>
      if (val s0 <? RuneSelf)%N then (val s0, 1)
      else
        match first s0 with
        | None => (RuneError, 1)
        | Some (sz, (lo, hi)) =>
            match t with
            | "" => (RuneError, 1)
            | String s1 t1 =>
                if negb (within lo hi s1) then (RuneError, 1)
                else if sz <=? 2 then
                  (N.lor (N.shiftl (bits 0x1F s0) 6) (bits 0x3F s1), 2)
                else
                  match t1 with
                  | "" => (RuneError, 1)
                  | String s2 t2 =>
                      if negb (cont s2) then (RuneError, 1)
                      else if sz <=? 3 then
                        (N.lor (N.shiftl (bits 0x0F s0) 12)
                           (N.lor (N.shiftl (bits 0x3F s1) 6) (bits 0x3F s2)), 3)
                      else
                        match t2 with
                        | "" => (RuneError, 1)
                        | String s3 _ =>
                            if negb (cont s3) then (RuneError, 1)
                            else
                              (N.lor (N.shiftl (bits 0x07 s0) 18)
                                 (N.lor (N.shiftl (bits 0x3F s1) 12)
                                    (N.lor (N.shiftl (bits 0x3F s2) 6)
                                       (bits 0x3F s3))), 4)
                        end
                  end
            end
        end
  end.

(** [utf8.ValidRune] *)
Definition ValidRune (r : rune) : bool :=
  ((r <? 0xD800) || ((0xDFFF <? r) && (r <=? MaxRune)))%N.

Definition tail6 (r : rune) (shift : N) : ascii :=
  byte (N.lor 0x80 (N.land (N.shiftr r shift) 0x3F)).

(** [utf8.EncodeRune], also the conversion [string(r)]: a rune out of range
    or a surrogate half is written as U+FFFD. *)
Definition EncodeRune (r : rune) : string :=
  let enc3 (r : rune) :=
    String (byte (N.lor 0xE0 (N.shiftr r 12)))
      (String (tail6 r 6) (String (tail6 r 0) "")) in
  if (r <=? 0x7F)%N then String (byte r) ""
  else if (r <=? 0x7FF)%N then
    String (byte (N.lor 0xC0 (N.shiftr r 6))) (String (tail6 r 0) "")
  else if negb (ValidRune r) then enc3 RuneError
  else if (r <=? 0xFFFF)%N then enc3 r
  else
    String (byte (N.lor 0xF0 (N.shiftr r 18)))
      (String (tail6 r 12) (String (tail6 r 6) (String (tail6 r 0) ""))).

(** [utf8.RuneCountInString] *)
Definition RuneCountInString (s : string) : nat :=
  fst (scan (λ n rest, Some (S n, snd (DecodeRuneInString rest))) 0 0 s).

(** Whether [for _, r := range s] meets the rune [RuneError]. *)
Definition rangesOverRuneError (s : string) : bool :=
  fst (scan (λ (found : bool) rest,
               if found then None
               else let '(r, n) := DecodeRuneInString rest in
                    Some ((r =? RuneError)%N, n)) 0 false s).

End utf8.

(** ** [strings] *)

Module strings.
Import Bytes utf8.

(** [strings.HasPrefix] *)
Fixpoint HasPrefix (s prefix : string) {struct prefix} : bool :=
  match prefix, s with
  | "", _ => true
  | String p prefix', String c s' => Ascii.eqb c p && HasPrefix s' prefix'
  | String _ _, "" => false
  end.

(** [strings.Index]: the index of the first instance of [substr] in [s];
    [None] stands for Go's [-1]. *)
Fixpoint Index (s substr : string) : option nat :=
  if HasPrefix s substr then Some 0
  else
    match s with
    | "" => None
    | String _ t => S <$> Index t substr
    end.

(** [strings.IndexRune(s, r) >= 0], which is [strings.ContainsRune]. *)
Definition ContainsRune (s : string) (r : rune) : bool :=
  if (r <? RuneSelf)%N then elem (byte r) s
  else if (r =? RuneError)%N then rangesOverRuneError s
  else if negb (ValidRune r) then false
  else bool_decide (is_Some (Index s (EncodeRune r))).

(** [strings.TrimLeftFunc]: [s] from its first rune that does not satisfy
    [f] on, the empty string when every rune satisfies it. *)
Definition TrimLeftFunc (s : string) (f : rune → bool) : string :=
  snd (scan (λ (_ : unit) rest,
               let '(r, n) := DecodeRuneInString rest in
               if f r then Some ((), n) else None) 0 () s).

(** [strings.TrimLeft]: [s] with all leading Unicode code points contained
    in [cutset] removed.  [makeCutsetFunc] tests membership with
    [IndexRune]; its two fast paths for cutsets of ASCII bytes compute the
    same predicate. *)
Definition TrimLeft (s cutset : string) : string :=
  if String.eqb s "" || String.eqb cutset "" then s
  else TrimLeftFunc s (ContainsRune cutset).

(** [explode]: [s] split into its UTF-8 sequences, at most [n] strings, the
    last of which holds the rest. *)
Fixpoint explodeLoop (k : nat) (s : string) : list string :=
  match k with
  | O => [s]
  | S k' =>
      let '(ch, size) := DecodeRuneInString s in
      (if (ch =? RuneError)%N then EncodeRune RuneError else take size s)
        :: explodeLoop k' (drop size s)
  end.

Definition explode (s : string) (n : nat) : list string :=
  match n `min` RuneCountInString s with
  | O => []
  | S k => explodeLoop k s
  end.

(** The loop of [genSplit]: up to [n] cuts at instances of [sep]. *)
Fixpoint splitLoop (n : nat) (s sep : string) : list string :=
  match n with
  | O => [s]
  | S n' =>
      match Index s sep with
      | None => [s]
      | Some m =>
          take m s :: splitLoop n' (drop (m + String.length sep) s) sep
      end
  end.

(** [strings.SplitN(s, sep, n)] for a count [n >= 0]: at most [n]
    substrings, the last one the unsplit remainder; no substring for
    [n = 0].  (A negative count, which asks for every substring, is not a
    [nat].) *)
Definition SplitN (s sep : string) (n : nat) : list string :=
  match n with
  | O => []
  | S n' => if String.eqb sep "" then explode s n else splitLoop n' s sep
  end.

End strings.

(** ** [fmt] *)

Module fmt.
(** [fmt.Sprintf("https://%s", a)] *)
Definition Sprintf_https (a : string) : string := "https://" +:+ a.
(** [fmt.Sprintf("%s/", a)] *)
Definition Sprintf_slash (a : string) : string := a +:+ "/".
End fmt.

(** ** [encoding/json]

    [json.Unmarshal] first checks that the whole input is one JSON value
    ([checkValid], the scanner) and then stores it into the Go value.  Here the
    scanner's work is [parse]: the text is cut into tokens, with the states of
    the scanner's number and string automata, and the tokens are put together
    into a [value]; storing is by recursion on that value (further down, next
    to the struct declarations it is driven by). *)

Module json.
Import Bytes utf8.

Local Unset Elimination Schemes.

Inductive value : Type :=
| Null
| Bool (b : bool)
| Number (literal : string)
| Str (s : string)
| Array (elements : list value)
| Object (members : list (string * value)).

Local Set Elimination Schemes.

(** *** Tokens *)

Inductive token : Type :=
| LBrace | RBrace | LBracket | RBracket | Colon | Comma
| TString (raw : string)   (* the text between the quotes, escapes not yet read *)
| TNumber (literal : string)
| TLiteral (v : value).    (* true, false, null *)

Definition quote : ascii := "034"%char.
Definition backslash : ascii := "\"%char.

Definition isSpace (c : ascii) : bool :=
  bool_decide (val c = 0x20 ∨ val c = 0x09 ∨ val c = 0x0D ∨ val c = 0x0A)%N.

Definition isDigit (c : ascii) : bool := within 0x30 0x39 c.

Definition isHex (c : ascii) : bool :=
  within 0x30 0x39 c || within 0x61 0x66 c || within 0x41 0x46 c.

(** The scanner's states inside a number. *)
Inductive numState : Type :=
| stateNeg | state0 | state1 | stateDot | stateDot0 | stateE | stateESign | stateE0.

(** The next state when [c] goes on with the number, [None] when it does not. *)
Definition numStep (st : numState) (c : ascii) : option numState :=
  let digit := isDigit c in
  let e := bool_decide (c = "e"%char ∨ c = "E"%char) in
  match st with
  | stateNeg =>
      if bool_decide (c = "0"%char) then Some state0
      else if digit then Some state1 else None
  | state1 =>
      if digit then Some state1
      else if bool_decide (c = "."%char) then Some stateDot
      else if e then Some stateE else None
  | state0 =>
      if bool_decide (c = "."%char) then Some stateDot
      else if e then Some stateE else None
  | stateDot => if digit then Some stateDot0 else None
  | stateDot0 =>
      if digit then Some stateDot0 else if e then Some stateE else None
  | stateE =>
      if bool_decide (c = "+"%char ∨ c = "-"%char) then Some stateESign
      else if digit then Some stateE0 else None
  | stateESign => if digit then Some stateE0 else None
  | stateE0 => if digit then Some stateE0 else None
  end.

(** The states in which a number may end. *)
Definition numEnd (st : numState) : bool :=
  match st with
  | state0 | state1 | stateDot0 | stateE0 => true
  | _ => false
  end.

(** The scanner's states inside a string literal. *)
Inductive strState : Type :=
| stateInString
| stateInStringEsc
| stateInStringEscU (left : nat).   (* hexadecimal digits still to come *)

(** [None]: [c] may not stand here; [Some None]: [c] is the closing quote. *)
Definition strStep (st : strState) (c : ascii) : option (option strState) :=
  match st with
  | stateInString =>
      if bool_decide (c = quote) then Some None
      else if bool_decide (c = backslash) then Some (Some stateInStringEsc)
      else if (val c <? 0x20)%N then None
      else Some (Some stateInString)
  | stateInStringEsc =>
      if bool_decide (c = "u"%char) then Some (Some (stateInStringEscU 4))
      else if elem c "bfnrt\/" || bool_decide (c = quote)
           then Some (Some stateInString)
      else None
  | stateInStringEscU k =>
      if isHex c then
        Some (Some (match k with
                    | S (S k') => stateInStringEscU (S k')
                    | _ => stateInString
                    end))
      else None
  end.

Inductive lexState : Type :=
| lexValue                                   (* between tokens *)
| lexString (st : strState) (raw : string)
| lexNumber (st : numState) (literal : string)
| lexLiteral (rest : string) (v : value).

Definition snoc (s : string) (c : ascii) : string := s +:+ String c "".

(** A byte met between tokens. *)
Definition lexStart (c : ascii) : option (lexState * list token) :=
  if isSpace c then Some (lexValue, [])
  else if bool_decide (c = quote) then Some (lexString stateInString "", [])
  else if within 0x31 0x39 c then Some (lexNumber state1 (String c ""), [])
  else
    match c with
    | "{"%char => Some (lexValue, [LBrace])
    | "}"%char => Some (lexValue, [RBrace])
    | "["%char => Some (lexValue, [LBracket])
    | "]"%char => Some (lexValue, [RBracket])
    | ":"%char => Some (lexValue, [Colon])
    | ","%char => Some (lexValue, [Comma])
    | "-"%char => Some (lexNumber stateNeg "-", [])
    | "0"%char => Some (lexNumber state0 "0", [])
    | "t"%char => Some (lexLiteral "rue" (Bool true), [])
    | "f"%char => Some (lexLiteral "alse" (Bool false), [])
    | "n"%char => Some (lexLiteral "ull" Null, [])
    | _ => None
    end.

Fixpoint lex (st : lexState) (s : string) : option (list token) :=
  match s with
  | "" =>
      match st with
      | lexValue => Some []
      | lexNumber ns lit => if numEnd ns then Some [TNumber lit] else None
      | _ => None
      end
  | String c s' =>
      match st with
      | lexValue =>
          match lexStart c with
          | Some (st', ts) => (ts ++.) <$> lex st' s'
          | None => None
          end
      | lexString ss raw =>
          match strStep ss c with
          | None => None
          | Some None => (TString raw ::.) <$> lex lexValue s'
          | Some (Some ss') => lex (lexString ss' (snoc raw c)) s'
          end
      | lexNumber ns lit =>
          match numStep ns c with
          | Some ns' => lex (lexNumber ns' (snoc lit c)) s'
          | None =>
              if numEnd ns then
                match lexStart c with
                | Some (st', ts) => ((TNumber lit :: ts) ++.) <$> lex st' s'
                | None => None
                end
              else None
          end
      | lexLiteral rest v =>
          match rest with
          | "" => None
          | String r rest' =>
              if bool_decide (c = r) then
                match rest' with
                | "" => (TLiteral v ::.) <$> lex lexValue s'
                | _ => lex (lexLiteral rest' v) s'
                end
              else None
          end
      end
  end.

(** *** String literals: [unquoteBytes] *)

Definition hexVal (c : ascii) : N :=
  (if within 0x30 0x39 c then val c - 0x30
   else if within 0x61 0x66 c then val c - 0x61 + 10
   else val c - 0x41 + 10)%N.

(** [getu4]: the number of a [\uXXXX] escape at the head of [s]; [None]
    (Go's [-1]) when [s] does not start with one. *)
Definition getu4 (s : string) : option N :=
  match s with
  | String b (String u (String h1 (String h2 (String h3 (String h4 _))))) =>
      if bool_decide (b = backslash) && bool_decide (u = "u"%char)
         && isHex h1 && isHex h2 && isHex h3 && isHex h4
      then Some (hexVal h1 * 4096 + hexVal h2 * 256 + hexVal h3 * 16 + hexVal h4)%N
      else None
  | _ => None
  end.

(** [utf16.IsSurrogate] *)
Definition IsSurrogate (r : rune) : bool := ((0xD800 <=? r) && (r <? 0xE000))%N.

(** [utf16.DecodeRune] *)
Definition utf16_DecodeRune (r1 : rune) (r2 : option rune) : rune :=
  match r2 with
  | Some r2 =>
      if ((0xD800 <=? r1) && (r1 <? 0xDC00) && (0xDC00 <=? r2) && (r2 <? 0xE000))%N
      then (N.lor (N.shiftl (r1 - 0xD800) 10) (r2 - 0xDC00) + 0x10000)%N
      else RuneError
  | None => RuneError
  end.

(** One step of the loop of [unquoteBytes] over a literal the scanner has
    accepted: what to write for the head of [rest], and its width. *)
Definition unquoteStep (out rest : string) : option (string * nat) :=
  match rest with
  | "" => None
  | String c rest' =>
      if bool_decide (c = backslash) then
        match rest' with
        | "" => None
        | String e _ =>
            if bool_decide (e = "u"%char) then
              match getu4 rest with
              | None => None
              | Some rr =>
                  if IsSurrogate rr then
                    let dec := utf16_DecodeRune rr (getu4 (drop 6 rest)) in
                    if bool_decide (dec ≠ RuneError)
                    then Some (out +:+ EncodeRune dec, 12)
                    else Some (out +:+ EncodeRune RuneError, 6)
                  else Some (out +:+ EncodeRune rr, 6)
              end
            else
              let w :=
                match e with
                | "b"%char => "008"%char
                | "f"%char => "012"%char
                | "n"%char => "010"%char
                | "r"%char => "013"%char
                | "t"%char => "009"%char
                | _ => e                      (* quote, backslash, slash *)
                end in
              Some (snoc out w, 2)
        end
      else if (val c <? RuneSelf)%N then Some (snoc out c, 1)
      else
        let '(rr, size) := DecodeRuneInString rest in
        Some (out +:+ EncodeRune rr, size)
  end.

Definition unquote (raw : string) : string := fst (scan unquoteStep 0 "" raw).

(** *** From tokens to a value *)

(** An array or object that is still open, its items so far in reverse. *)
Inductive frame : Type :=
| inArray (items : list value)
| inObject (members : list (string * value))
| inMember (members : list (string * value)) (key : string).

Inductive parseState : Type :=
| beginValue (orEmpty : bool)     (* a value, or [']'] right after ['['] *)
| beginString (orEmpty : bool)    (* a key, or ['}'] right after ['{'] *)
| objectKey                       (* the [':'] after a key *)
| endValue                        (* [','] or the closing bracket *)
| endTop (v : value).             (* the value is complete *)

(** A complete value goes into the innermost open array or object. *)
Definition close (v : value) (stack : list frame)
  : option (parseState * list frame) :=
  match stack with
  | [] => Some (endTop v, [])
  | inArray items :: up => Some (endValue, inArray (v :: items) :: up)
  | inMember members key :: up =>
      Some (endValue, inObject ((key, v) :: members) :: up)
  | inObject _ :: _ => None
  end.

Definition parseStep (st : parseState) (stack : list frame) (t : token)
  : option (parseState * list frame) :=
  match st, t with
  | beginValue _, TString raw => close (Str (unquote raw)) stack
  | beginValue _, TNumber lit => close (Number lit) stack
  | beginValue _, TLiteral v => close v stack
  | beginValue _, LBracket => Some (beginValue true, inArray [] :: stack)
  | beginValue _, LBrace => Some (beginString true, inObject [] :: stack)
  | beginValue true, RBracket =>
      match stack with
      | inArray items :: up => close (Array (reverse items)) up
      | _ => None
      end
  | beginString _, TString raw =>
      match stack with
      | inObject members :: up =>
          Some (objectKey, inMember members (unquote raw) :: up)
      | _ => None
      end
  | beginString true, RBrace =>
      match stack with
      | inObject members :: up => close (Object (reverse members)) up
      | _ => None
      end
  | objectKey, Colon => Some (beginValue false, stack)
  | endValue, Comma =>
      match stack with
      | inArray _ :: _ => Some (beginValue false, stack)
      | inObject _ :: _ => Some (beginString false, stack)
      | _ => None
      end
  | endValue, RBracket =>
      match stack with
      | inArray items :: up => close (Array (reverse items)) up
      | _ => None
      end
  | endValue, RBrace =>
      match stack with
      | inObject members :: up => close (Object (reverse members)) up
      | _ => None
      end
  | _, _ => None
  end.

Fixpoint parseTokens (st : parseState) (stack : list frame) (ts : list token)
  : option value :=
  match ts with
  | [] => match st with endTop v => Some v | _ => None end
  | t :: ts' =>
      match parseStep st stack t with
      | Some (st', stack') => parseTokens st' stack' ts'
      | None => None
      end
  end.

(** The value a text denotes; [None] is a [SyntaxError]. *)
Definition parse (data : string) : option value :=
  match lex lexValue data with
  | Some ts => parseTokens (beginValue false) [] ts
  | None => None
  end.

End json.

(** ** Go values *)

(** A Go [error], as far as this file tells errors apart. *)
Inductive error : Type :=
| errorString (msg : string)                      (* an error of the outside world *)
| SyntaxError                                      (* [*json.SyntaxError] *)
| UnmarshalTypeError (Value Type_ : string).       (* [*json.UnmarshalTypeError] *)

(** A [[]string]: the backing array and the length of the slice; the capacity
    is the length of the array.  The nil slice has no array. *)
Module slice.

Record t : Type := make { array : list string; len : nat }.

Definition nil : t := make [] 0.

Definition cap (v : t) : nat := length (array v).

(** The strings of the slice, [v[0]] to [v[len-1]]. *)
Definition elements (v : t) : list string := take (len v) (array v).

(** [reflect.MakeSlice(typ, len, cap)] followed by [reflect.Copy(newv, v)] *)
Definition grow (v : t) (newcap : nat) : t :=
  make (take (len v) (array v) ++ replicate (newcap - len v) "") (len v).

Definition SetLen (v : t) (n : nat) : t := make (array v) n.

(** [v.Index(i)] and a store through it. *)
Definition Index (v : t) (i : nat) : string := default "" (array v !! i).
Definition SetIndex (v : t) (i : nat) (x : string) : t :=
  make (<[i := x]> (array v)) (len v).

End slice.

(** *** [BlobResponse], [Config], [DockerCreds] *)

(** Config stores Cmd and Entrypoint retrieved from blob response *)
Record Config : Type := {
  Cmd : slice.t;          (* `json:"Cmd"` *)
  Entrypoint : slice.t;   (* `json:"Entrypoint"` *)
}.

(** BlobResponse stores blob response *)
Record BlobResponse : Type := {
  Config_ : Config;       (* the field [Config], `json:"config"` *)
}.

Module dockerTypes.

(** Modelled from the spec: the declaration of [dockerTypes.AuthConfig]
    (package [github.com/docker/docker/api/types]) is not part of this
    repository.  The spec gives an [auths] entry as a
    [{username, password}] pair, the two fields [parseDockerConfig] reads. *)
Record AuthConfig : Type := {
  Username : string;      (* `json:"username"` *)
  Password : string;      (* `json:"password"` *)
}.

End dockerTypes.
Import dockerTypes.

Record DockerCreds : Type := {
  Auths : gmap string AuthConfig;   (* `json:"auths"`; the nil map is [∅] *)
}.

(** The zero values [var msg BlobResponse] and [var dockerCreds DockerCreds]. *)
Definition zeroConfig : Config := {| Cmd := slice.nil; Entrypoint := slice.nil |}.
Definition zeroBlobResponse : BlobResponse := {| Config_ := zeroConfig |}.
Definition zeroAuthConfig : AuthConfig := {| Username := ""; Password := "" |}.
Definition zeroDockerCreds : DockerCreds := {| Auths := ∅ |}.

(** ** [encoding/json]: storing a value *)

Module decode.
Import Bytes utf8 json.

(** *** [fold.go]: matching a key with a field name *)

Definition caseMask : N := 0xDF.
Definition upper (c : ascii) : N := N.land (val c) caseMask.
Definition isUpperAZ (n : N) : bool := ((0x41 <=? n) && (n <=? 0x5A))%N.

Definition kelvin : rune := 0x212A%N.
Definition smallLongEss : rune := 0x17F%N.

Fixpoint simpleLetterEqualFold (s t : string) : bool :=
  match s, t with
  | "", "" => true
  | String sb s', String tb t' =>
      (upper sb =? upper tb)%N && simpleLetterEqualFold s' t'
  | _, _ => false
  end.

Fixpoint asciiEqualFold (s t : string) : bool :=
  match s, t with
  | "", "" => true
  | String sb s', String tb t' =>
      (if bool_decide (sb = tb) then true
       else if within 0x61 0x7A sb || within 0x41 0x5A sb
            then (upper sb =? upper tb)%N
       else false)
      && asciiEqualFold s' t'
  | _, _ => false
  end.

Fixpoint equalFoldRight (s t : string) : bool :=
  match s with
  | "" => bool_decide (t = "")
  | String sb s' =>
      match t with
      | "" => false
      | String tb t' =>
          if (val tb <? RuneSelf)%N then
            (if bool_decide (sb = tb) then true
             else isUpperAZ (upper sb) && (upper sb =? upper tb)%N)
            && equalFoldRight s' t'
          else
            (* sb is ASCII and t is not: t must be the Kelvin sign or the
               long s, and sb one of s, S, k, K *)
            let '(tr, size) := DecodeRuneInString t in
            (if bool_decide (sb = "s"%char ∨ sb = "S"%char)
             then (tr =? smallLongEss)%N
             else if bool_decide (sb = "k"%char ∨ sb = "K"%char)
             then (tr =? kelvin)%N
             else false)
            && equalFoldRight s' (drop size t)
      end
  end.

Fixpoint anyByte (p : ascii → bool) (s : string) : bool :=
  match s with
  | "" => false
  | String c s' => p c || anyByte p s'
  end.

(** [foldFunc], for a name of ASCII bytes, which every json tag of this file
    is (a name with other bytes is compared with [bytes.EqualFold]). *)
Definition foldFunc (s : string) : string → string → bool :=
  if anyByte (λ b, bool_decide (upper b = 0x4B ∨ upper b = 0x53)%N) s
  then equalFoldRight
  else if anyByte (λ b, negb (isUpperAZ (upper b))) s then asciiEqualFold
  else simpleLetterEqualFold.

(** The field a key goes to in [d.object]: the first field whose name is the
    key, else the first whose name matches it under folding. *)
Fixpoint findField (fields : list string) (key : string) (i : nat)
    (f : option nat) : option nat :=
  match fields with
  | [] => f
  | name :: fields' =>
      if bool_decide (name = key) then Some i
      else
        findField fields' key (S i)
          (match f with
           | None => if foldFunc name name key then Some i else None
           | Some _ => f
           end)
  end.

(** *** Stores

    A store takes the JSON value and the Go value it decodes into, and gives
    the Go value afterwards with the errors it saved ([d.saveError]): a JSON
    value of the wrong kind is skipped and decoding goes on. *)

Definition kind (j : value) : string :=
  match j with
  | Null => "null"
  | Bool _ => "bool"
  | Number _ => "number"
  | Str _ => "string"
  | Array _ => "array"
  | Object _ => "object"
  end.

(** Into a [string]. *)
Definition string_ (j : value) (v : string) : string * list error :=
  match j with
  | Null => (v, [])
  | Str s => (s, [])
  | _ => (v, [UnmarshalTypeError (kind j) "string"])
  end.

(** The loop of [d.array] into a [[]string]: element [i] of the JSON array
    goes into [v[i]], the slice growing as needed. *)
Fixpoint arrayLoop (items : list value) (i : nat) (v : slice.t)
  : nat * slice.t * list error :=
  match items with
  | [] => (i, v, [])
  | item :: items' =>
      let v :=
        if slice.cap v <=? i then
          let newcap := slice.cap v + slice.cap v / 2 in
          slice.grow v (if newcap <? 4 then 4 else newcap)
        else v in
      let v := if slice.len v <=? i then slice.SetLen v (S i) else v in
      let '(x, errs) := string_ item (slice.Index v i) in
      let '(n, v', errs') := arrayLoop items' (S i) (slice.SetIndex v i x) in
      (n, v', errs ++ errs')
  end.

(** Into a [[]string]. *)
Definition strings_ (j : value) (v : slice.t) : slice.t * list error :=
  match j with
  | Null => (slice.nil, [])
  | Array items =>
      let '(i, v, errs) := arrayLoop items 0 v in
      let v := if i <? slice.len v then slice.SetLen v i else v in
      (if bool_decide (i = 0) then slice.make [] 0 else v, errs)
  | _ => (v, [UnmarshalTypeError (kind j) "[]string"])
  end.

(** Into a struct with the fields [fields]: each member of the object, in the
    order of the text, goes to the field its key names through [store];
    members that name no field are skipped. *)
Definition struct_ {T : Type} (typ : string) (fields : list string)
    (store : nat → value → T → T * list error) (j : value) (v : T)
  : T * list error :=
  match j with
  | Null => (v, [])
  | Object members =>
      foldl (λ '(v, errs) '(key, item),
               match findField fields key 0 None with
               | None => (v, errs)
               | Some i => let '(v', e) := store i item v in (v', errs ++ e)
               end) (v, []) members
  | _ => (v, [UnmarshalTypeError (kind j) typ])
  end.

(** Into a map with string keys: every member is decoded into a fresh zero
    element, which is then stored at its key. *)
Definition map_ {T : Type} (typ : string) (zero : T)
    (store : value → T → T * list error) (j : value) (v : gmap string T)
  : gmap string T * list error :=
  match j with
  | Null => (∅, [])
  | Object members =>
      foldl (λ '(v, errs) '(key, item),
               let '(elem, e) := store item zero in
               (<[key := elem]> v, errs ++ e)) (v, []) members
  | _ => (v, [UnmarshalTypeError (kind j) typ])
  end.

(** [json.Unmarshal(data, &v)]: the value after the call and the error
    returned, the first one saved. *)
Definition Unmarshal {T : Type} (store : value → T → T * list error)
    (data : string) (v : T) : T * option error :=
  match parse data with
  | None => (v, Some SyntaxError)
  | Some j => let '(v', errs) := store j v in (v', head errs)
  end.

End decode.

(** *** The stores of this file's types, read off their json tags *)

Definition store_Config : json.value → Config → Config * list error :=
  decode.struct_ "registry.Config" ["Cmd"; "Entrypoint"]
    (λ i item c,
       match i with
       | 0 => let '(s, e) := decode.strings_ item (Cmd c) in
              ({| Cmd := s; Entrypoint := Entrypoint c |}, e)
       | _ => let '(s, e) := decode.strings_ item (Entrypoint c) in
              ({| Cmd := Cmd c; Entrypoint := s |}, e)
       end).

Definition store_BlobResponse
  : json.value → BlobResponse → BlobResponse * list error :=
  decode.struct_ "registry.BlobResponse" ["config"]
    (λ _ item b,
       let '(c, e) := store_Config item (Config_ b) in ({| Config_ := c |}, e)).

Definition store_AuthConfig : json.value → AuthConfig → AuthConfig * list error :=
  decode.struct_ "types.AuthConfig" ["username"; "password"]
    (λ i item a,
       match i with
       | 0 => let '(s, e) := decode.string_ item (Username a) in
              ({| Username := s; Password := Password a |}, e)
       | _ => let '(s, e) := decode.string_ item (Password a) in
              ({| Username := Username a; Password := s |}, e)
       end).

Definition store_DockerCreds
  : json.value → DockerCreds → DockerCreds * list error :=
  decode.struct_ "registry.DockerCreds" ["auths"]
    (λ _ item d,
       let '(m, e) :=
         decode.map_ "map[string]types.AuthConfig" zeroAuthConfig
           store_AuthConfig item (Auths d) in
       ({| Auths := m |}, e)).

(** ** The outside world and the effects of a call *)

Module corev1.

Record LocalObjectReference : Type := { Name : string }.

Record Container : Type := { Image : string }.

Record PodSpec : Type := { ImagePullSecrets : list LocalObjectReference }.

Definition DockerConfigJsonKey : string := ".dockerconfigjson".

End corev1.

Module registry.

(** A session with a registry ([*registry.Registry] of
    [github.com/heroku/docker-registry-client]): [registry.New] builds it on
    the default transport, which verifies the server's certificate, and
    [registry.NewInsecure] on a transport with [InsecureSkipVerify] set. *)
Record Registry : Type := {
  InsecureSkipVerify : bool;
  URL : string;
  Username : string;
  Password : string;
}.

End registry.

(** What [hub.DownloadBlob] hands back: a stream that [ioutil.ReadAll] either
    reads to its end or fails on. *)
Record Reader : Type := { content : string; readError : option error }.

Record World : Type := {
  (** [os.Getenv]: the value of a variable, empty when it is not set *)
  environ : string → string;
  (** [clientset.CoreV1().Secrets(namespace).Get(name, ...)]: the [Data] of
      the Secret *)
  secrets : string → string → error + gmap string string;
  (** the order in which [reflect.Value.MapKeys] lists the keys of a map *)
  mapKeys : gmap string dockerTypes.AuthConfig → list string;
  (** whether the registry answers when a session is set up *)
  ping : registry.Registry → option error;
  (** the digest of the config blob in the v2 manifest of [repository:tag] *)
  manifestV2 : registry.Registry → string → string → error + string;
  (** the blob of [repository] with the given digest *)
  downloadBlob : registry.Registry → string → string → error + Reader;
}.

(** Go leaves the order of [MapKeys] open; it lists every key once. *)
Definition MapKeys_lists_keys (w : World) : Prop :=
  ∀ m, mapKeys w m ≡ₚ (map_to_list m).*1.

Inductive Level : Type := InfoLevel | FatalLevel.

(** What a call does that can be seen from outside, in order. *)
Inductive event : Type :=
| ev_Log (level : Level) (msg : string) (fields : list string + error)
| ev_Getenv (key : string)
| ev_SecretGet (namespace name : string)
| ev_New (url username password : string)
| ev_NewInsecure (url username password : string)
| ev_ManifestV2 (hub : registry.Registry) (repository tag : string)
| ev_DownloadBlob (hub : registry.Registry) (repository digest : string)
| ev_ReadAll
| ev_Close.

(** How a call ends: it returns, the process exits ([os.Exit]), or the
    goroutine panics. *)
Inductive outcome (A : Type) : Type :=
| Return (a : A)
| Exit (code : nat)
| Panic (msg : string).

Arguments Return {A} a.
Arguments Exit {A} code.
Arguments Panic {A} msg.

(** A computation: the events up to its end, and how it ends. *)
Definition M (A : Type) : Type := list event * outcome A.

#[export] Instance M_ret : MRet M := λ A a, ([], Return a).

#[export] Instance M_bind : MBind M := λ A B f m,
  match m with
  | (t, Return a) => let '(t', o) := f a in (t ++ t', o)
  | (t, Exit c) => (t, Exit c)
  | (t, Panic msg) => (t, Panic msg)
  end.

Definition trace {A : Type} (m : M A) : list event := m.1.
Definition result {A : Type} (m : M A) : outcome A := m.2.

Definition emit (e : event) : M unit := ([e], Return ()).

Definition panic {A : Type} (msg : string) : M A := ([], Panic msg).

(** [l[i]] *)
Definition index {A : Type} (l : list A) (i : nat) : M A :=
  match l !! i with
  | Some x => mret x
  | None => panic "runtime error: index out of range"
  end.

Module logger.

Definition Info (msg : string) (fields : list string) : M unit :=
  emit (ev_Log InfoLevel msg (inl fields)).

Definition Infoln (msg : string) (args : list string) : M unit :=
  emit (ev_Log InfoLevel msg (inl args)).

(** [logger.Fatal]: logs, then calls [os.Exit(1)]; nothing after it runs,
    deferred calls included. *)
Definition Fatal {A : Type} (msg : string) (fields : list string + error) : M A :=
  ([ev_Log FatalLevel msg fields], Exit 1).

End logger.

Module os.
Definition Getenv (w : World) (key : string) : M string :=
  emit (ev_Getenv key);; mret (environ w key).
End os.

Module hub.
Import registry.

Definition New (w : World) (url username password : string)
  : M (error + Registry) :=
  let h := {| InsecureSkipVerify := false; URL := url;
              Username := username; Password := password |} in
  emit (ev_New url username password);;
  mret (match ping w h with Some err => inl err | None => inr h end).

Definition NewInsecure (w : World) (url username password : string)
  : M (error + Registry) :=
  let h := {| InsecureSkipVerify := true; URL := url;
              Username := username; Password := password |} in
  emit (ev_NewInsecure url username password);;
  mret (match ping w h with Some err => inl err | None => inr h end).

Definition ManifestV2 (w : World) (h : Registry) (repository tag : string)
  : M (error + string) :=
  emit (ev_ManifestV2 h repository tag);; mret (manifestV2 w h repository tag).

Definition DownloadBlob (w : World) (h : Registry) (repository digest : string)
  : M (error + Reader) :=
  emit (ev_DownloadBlob h repository digest);;
  mret (downloadBlob w h repository digest).

End hub.

Module ioutil.
Definition ReadAll (r : Reader) : M (error + string) :=
  emit ev_ReadAll;;
  mret (match readError r with Some err => inl err | None => inr (content r) end).
End ioutil.

(** ** registry.go *)

(** ParseContainerImage returns image and tag *)
Definition ParseContainerImage (image : string) : M (string * string) :=
  let split := strings.SplitN image ":" 2 in
  (if length split <=? 1
   then logger.Fatal "Cannot find tag for image" (inl [image])
   else mret ());;
  imageName ← index split 0;
  tag ← index split 1;
  mret (imageName, tag).

(** GetImageBlob download image blob from registry *)
Definition GetImageBlob (w : World) (url username password image : string)
  : M (slice.t * slice.t) :=
  '(imageName, tag) ← ParseContainerImage image;
  registrySkipVerify ← os.Getenv w "REGISTRY_SKIP_VERIFY";
  r ← (if String.eqb registrySkipVerify "true"
       then hub.NewInsecure w url username password
       else hub.New w url username password);
  h ← match r with
      | inl err => logger.Fatal "Cannot create client for registry" (inr err)
      | inr h => mret h
      end;
  r ← hub.ManifestV2 w h imageName tag;
  digest ← match r with
           | inl err => logger.Fatal "Cannot download manifest for image" (inr err)
           | inr digest => mret digest
           end;
  r ← hub.DownloadBlob w h imageName digest;
  reader ← match r with
           | inl err => logger.Fatal "Cannot download blob" (inr err)
           | inr reader => mret reader
           end;
  r ← ioutil.ReadAll reader;
  b ← match r with
      | inl err => logger.Fatal "Cannot read blob" (inr err)
      | inr b => mret b
      end;
  let '(msg, err) := decode.Unmarshal store_BlobResponse b zeroBlobResponse in
  match err with
  | Some err => logger.Fatal "Cannot unmarshal JSON" (inr err)
  | None => mret ()
  end;;
  (* the deferred [reader.Close()] *)
  emit ev_Close;;
  mret (Entrypoint (Config_ msg), Cmd (Config_ msg)).

(** K8s structure keeps information retrieved from POD definition *)
Record K8s : Type := {
  Namespace : string;
  ImagePullSecrets : string;
  RegistryAddress : string;
  RegistryName : string;
  RegistryUsername : string;
  RegistryPassword : string;
  Image : string;
}.

Definition readDockerSecret (w : World) (k : K8s) (namespace secretName : string)
  : M (error + gmap string string) :=
  emit (ev_SecretGet namespace secretName);;
  mret (secrets w namespace secretName).

Definition parseDockerConfig (w : World) (k : K8s) (dockerCreds : DockerCreds)
  : M K8s :=
  name ← index (mapKeys w (Auths dockerCreds)) 0;
  let address :=
    if negb (strings.HasPrefix name "https://")
    then fmt.Sprintf_https name
    else name in
  let auths := Auths dockerCreds in
  let entry := default zeroAuthConfig (auths !! name) in
  mret {| Namespace := Namespace k;
          ImagePullSecrets := ImagePullSecrets k;
          RegistryAddress := address;
          RegistryName := name;
          RegistryUsername := dockerTypes.Username entry;
          RegistryPassword := dockerTypes.Password entry;
          Image := Image k |}.

Definition set_Image (k : K8s) (image : string) : K8s :=
  {| Namespace := Namespace k;
     ImagePullSecrets := ImagePullSecrets k;
     RegistryAddress := RegistryAddress k;
     RegistryName := RegistryName k;
     RegistryUsername := RegistryUsername k;
     RegistryPassword := RegistryPassword k;
     Image := image |}.

Definition set_ImagePullSecrets (k : K8s) (name : string) : K8s :=
  {| Namespace := Namespace k;
     ImagePullSecrets := name;
     RegistryAddress := RegistryAddress k;
     RegistryName := RegistryName k;
     RegistryUsername := RegistryUsername k;
     RegistryPassword := RegistryPassword k;
     Image := Image k |}.

(** Load reads information from k8s and load them into the structure *)
Definition Load (w : World) (k : K8s) (container : corev1.Container)
    (podSpec : corev1.PodSpec) : M K8s :=
  let k := set_Image k (corev1.Image container) in
  if 1 <=? length (corev1.ImagePullSecrets podSpec) then
    ref ← index (corev1.ImagePullSecrets podSpec) 0;
    let k := set_ImagePullSecrets k (corev1.Name ref) in
    if negb (String.eqb (ImagePullSecrets k) "") then
      r ← readDockerSecret w k (Namespace k) (ImagePullSecrets k);
      data ← match r with
             | inl err => logger.Fatal "Cannot read imagePullSecrets" (inr err)
             | inr data => mret data
             end;
      let dockerConfig := default "" (data !! corev1.DockerConfigJsonKey) in
      (* parse config *)
      let '(dockerCreds, err) :=
        decode.Unmarshal store_DockerCreds dockerConfig zeroDockerCreds in
      match err with
      | Some err =>
          logger.Fatal
            "Cannot unmarshal docker configuration from imagePullSecrets" (inr err)
      | None => mret ()
      end;;
      parseDockerConfig w k dockerCreds
    else mret k
  else mret k.

(** [K8s{Namespace: namespace, clientset: clientset}]: the other fields are
    empty strings. *)
Definition newK8s (namespace : string) : K8s :=
  {| Namespace := namespace; ImagePullSecrets := ""; RegistryAddress := "";
     RegistryName := ""; RegistryUsername := ""; RegistryPassword := "";
     Image := "" |}.

(** GetEntrypointCmd returns entrypoint and command of container *)
Definition GetEntrypointCmd (w : World) (namespace : string)
    (container : corev1.Container) (podSpec : corev1.PodSpec)
  : M (slice.t * slice.t) :=
  let podInfo := newK8s namespace in
  podInfo ← Load w podInfo container podSpec;
  podInfo ←
    (if negb (String.eqb (RegistryName podInfo) "") then
       logger.Info "Trimmed registry name from image name"
         [RegistryName podInfo; Image podInfo];;
       mret (set_Image podInfo
               (strings.TrimLeft (Image podInfo)
                  (fmt.Sprintf_slash (RegistryName podInfo))))
     else mret podInfo);
  let registryAddress := RegistryAddress podInfo in
  let registryAddress :=
    if String.eqb registryAddress "" then "https://registry-1.docker.io/"
    else registryAddress in
  logger.Infoln "I'm using registry"
    [registryAddress; RegistryUsername podInfo; RegistryPassword podInfo];;
  GetImageBlob w registryAddress (RegistryUsername podInfo)
    (RegistryPassword podInfo) (Image podInfo).

(** * Vocabulary of the properties *)

(** The text before the first colon of [s], and the text after it: the two
    halves the spec asks of the parser. *)
Fixpoint beforeFirstColon (s : string) : string :=
  match s with
  | "" => ""
  | String c s' =>
      if Ascii.eqb c ":" then "" else String c (beforeFirstColon s')
  end.

Fixpoint afterFirstColon (s : string) : string :=
  match s with
  | "" => ""
  | String c s' => if Ascii.eqb c ":" then s' else afterFirstColon s'
  end.

(** The registry sessions a trace opens, and the sessions its requests go
    through. *)
Definition sessionsOpened (t : list event) : list registry.Registry :=
  omap (λ e,
          match e with
          | ev_New url username password =>
              Some {| registry.InsecureSkipVerify := false; registry.URL := url;
                      registry.Username := username;
                      registry.Password := password |}
          | ev_NewInsecure url username password =>
              Some {| registry.InsecureSkipVerify := true; registry.URL := url;
                      registry.Username := username;
                      registry.Password := password |}
          | _ => None
          end) t.

Definition sessionsUsed (t : list event) : list registry.Registry :=
  omap (λ e,
          match e with
          | ev_ManifestV2 h _ _ | ev_DownloadBlob h _ _ => Some h
          | _ => None
          end) t.

(** The Secrets a trace reads. *)
Definition secretsRead (t : list event) : list (string * string) :=
  omap (λ e,
          match e with
          | ev_SecretGet namespace name => Some (namespace, name)
          | _ => None
          end) t.

(** The messages logged at Fatal level. *)
Definition fatalMessages : list string :=
  [ "Cannot find tag for image";
    "Cannot read imagePullSecrets";
    "Cannot unmarshal docker configuration from imagePullSecrets";
    "Cannot create client for registry";
    "Cannot download manifest for image";
    "Cannot download blob";
    "Cannot read blob";
    "Cannot unmarshal JSON" ].

(** The config blob of the spec, [{config: {Cmd: [...], Entrypoint: [...]}}],
    as a JSON value: the members of its [config] object are an array of
    strings for each of the two keys, in either order; an array that is
    [None] is absent from the object. *)
Definition arrayMember (key : string) (a : option (list string))
  : list (string * json.value) :=
  match a with
  | Some l => [(key, json.Array (json.Str <$> l))]
  | None => []
  end.

Definition blobJSON (members : list (string * json.value)) : json.value :=
  json.Object [("config", json.Object members)].

Definition blobMembers (cmd entrypoint : option (list string))
    (members : list (string * json.value)) : Prop :=
  members ≡ₚ arrayMember "Cmd" cmd ++ arrayMember "Entrypoint" entrypoint.

(** [s] without its longest prefix of bytes that occur in [cutset]. *)
Fixpoint dropCutset (cutset s : string) : string :=
  match s with
  | "" => ""
  | String c s' => if Bytes.elem c cutset then dropCutset cutset s' else s
  end.

(** Every byte of [s] is an ASCII character. *)
Fixpoint asciiOnly (s : string) : bool :=
  match s with
  | "" => true
  | String c s' => (Bytes.val c <? utf8.RuneSelf)%N && asciiOnly s'
  end.

(** ** A world to run the examples in *)

Module example.

(** The JSON texts below are written with an apostrophe where the text has a
    quotation mark. *)
Fixpoint dq (s : string) : string :=
  match s with
  | "" => ""
  | String c s' =>
      String (if Ascii.eqb c "'" then json.quote else c) (dq s')
  end.

Definition pullSecret : string :=
  dq "{'auths':{'myregistry.io':{'username':'u','password':'p'}}}".

Definition emptyAuths : string := dq "{'auths':{}}".

Definition configBlob : string :=
  dq "{'config':{'Cmd':['nginx','-g','daemon off;'],'Entrypoint':[]}}".

(** No variable is set; the Secret [regcred] holds [pullSecret], the Secret
    [noauths] holds [emptyAuths], the Secret [opaque] has no Docker config
    and there is no other Secret; map keys come in the order of
    [map_to_list]; every registry answers, and every image has the config
    blob [configBlob]. *)
Definition world : World := {|
  environ := λ _, "";
  secrets := λ _ name,
    if String.eqb name "regcred"
    then inr {[ corev1.DockerConfigJsonKey := pullSecret ]}
    else if String.eqb name "noauths"
    then inr {[ corev1.DockerConfigJsonKey := emptyAuths ]}
    else if String.eqb name "opaque"
    then inr {[ "token" := "c2VjcmV0" ]}
    else inl (errorString "secret not found");
  mapKeys := λ m, (map_to_list m).*1;
  ping := λ _, None;
  manifestV2 := λ _ _ _, inr "sha256:0123";
  downloadBlob := λ _ _ _, inr {| content := configBlob; readError := None |};
|}.

(** The same world with [REGISTRY_SKIP_VERIFY=true]. *)
Definition insecureWorld : World := {|
  environ := λ key, if String.eqb key "REGISTRY_SKIP_VERIFY" then "true" else "";
  secrets := secrets world;
  mapKeys := mapKeys world;
  ping := ping world;
  manifestV2 := manifestV2 world;
  downloadBlob := downloadBlob world;
|}.

Definition container (image : string) : corev1.Container :=
  {| corev1.Image := image |}.

Definition podSpec (secretNames : list string) : corev1.PodSpec :=
  {| corev1.ImagePullSecrets := corev1.Build_LocalObjectReference <$> secretNames |}.

End example.

(** ** The course of a call

    [GetImageBlob] and [Load], path by path: which answers of the world lead
    where, with the events in their order. *)

Definition skipVerify (w : World) : bool :=
  String.eqb (environ w "REGISTRY_SKIP_VERIFY") "true".

(** The session [GetImageBlob] sets up, and the call that sets it up. *)
Definition session (w : World) (url username password : string)
  : registry.Registry :=
  {| registry.InsecureSkipVerify := skipVerify w; registry.URL := url;
     registry.Username := username; registry.Password := password |}.

Definition ev_session (w : World) (url username password : string) : event :=
  if skipVerify w then ev_NewInsecure url username password
  else ev_New url username password.

Section runs.
Context (w : World).

Inductive GetImageBlob_run (url username password image : string)
  : M (slice.t * slice.t) → Prop :=
| blob_missing_tag :
    Bytes.elem ":" image = false →
    GetImageBlob_run url username password image
      ([ev_Log FatalLevel "Cannot find tag for image" (inl [image])], Exit 1)
| blob_no_session (err : error) :
    Bytes.elem ":" image = true →
    ping w (session w url username password) = Some err →
    GetImageBlob_run url username password image
      ([ev_Getenv "REGISTRY_SKIP_VERIFY";
        ev_session w url username password;
        ev_Log FatalLevel "Cannot create client for registry" (inr err)],
       Exit 1)
| blob_no_manifest (err : error) :
    let h := session w url username password in
    let repository := beforeFirstColon image in
    let tag := afterFirstColon image in
    Bytes.elem ":" image = true →
    ping w h = None →
    manifestV2 w h repository tag = inl err →
    GetImageBlob_run url username password image
      ([ev_Getenv "REGISTRY_SKIP_VERIFY";
        ev_session w url username password;
        ev_ManifestV2 h repository tag;
        ev_Log FatalLevel "Cannot download manifest for image" (inr err)],
       Exit 1)
| blob_no_blob (digest : string) (err : error) :
    let h := session w url username password in
    let repository := beforeFirstColon image in
    let tag := afterFirstColon image in
    Bytes.elem ":" image = true →
    ping w h = None →
    manifestV2 w h repository tag = inr digest →
    downloadBlob w h repository digest = inl err →
    GetImageBlob_run url username password image
      ([ev_Getenv "REGISTRY_SKIP_VERIFY";
        ev_session w url username password;
        ev_ManifestV2 h repository tag;
        ev_DownloadBlob h repository digest;
        ev_Log FatalLevel "Cannot download blob" (inr err)],
       Exit 1)
| blob_unreadable (digest : string) (reader : Reader) (err : error) :
    let h := session w url username password in
    let repository := beforeFirstColon image in
    let tag := afterFirstColon image in
    Bytes.elem ":" image = true →
    ping w h = None →
    manifestV2 w h repository tag = inr digest →
    downloadBlob w h repository digest = inr reader →
    readError reader = Some err →
    GetImageBlob_run url username password image
      ([ev_Getenv "REGISTRY_SKIP_VERIFY";
        ev_session w url username password;
        ev_ManifestV2 h repository tag;
        ev_DownloadBlob h repository digest;
        ev_ReadAll;
        ev_Log FatalLevel "Cannot read blob" (inr err)],
       Exit 1)
| blob_not_decoded (digest : string) (reader : Reader) (msg : BlobResponse)
    (err : error) :
    let h := session w url username password in
    let repository := beforeFirstColon image in
    let tag := afterFirstColon image in
    Bytes.elem ":" image = true →
    ping w h = None →
    manifestV2 w h repository tag = inr digest →
    downloadBlob w h repository digest = inr reader →
    readError reader = None →
    decode.Unmarshal store_BlobResponse (content reader) zeroBlobResponse
    = (msg, Some err) →
    GetImageBlob_run url username password image
      ([ev_Getenv "REGISTRY_SKIP_VERIFY";
        ev_session w url username password;
        ev_ManifestV2 h repository tag;
        ev_DownloadBlob h repository digest;
        ev_ReadAll;
        ev_Log FatalLevel "Cannot unmarshal JSON" (inr err)],
       Exit 1)
| blob_returned (digest : string) (reader : Reader) (msg : BlobResponse) :
    let h := session w url username password in
    let repository := beforeFirstColon image in
    let tag := afterFirstColon image in
    Bytes.elem ":" image = true →
    ping w h = None →
    manifestV2 w h repository tag = inr digest →
    downloadBlob w h repository digest = inr reader →
    readError reader = None →
    decode.Unmarshal store_BlobResponse (content reader) zeroBlobResponse
    = (msg, None) →
    GetImageBlob_run url username password image
      ([ev_Getenv "REGISTRY_SKIP_VERIFY";
        ev_session w url username password;
        ev_ManifestV2 h repository tag;
        ev_DownloadBlob h repository digest;
        ev_ReadAll;
        ev_Close],
       Return (Entrypoint (Config_ msg), Cmd (Config_ msg))).

Inductive Load_run (k : K8s) (container : corev1.Container)
    (podSpec : corev1.PodSpec) : M K8s → Prop :=
| load_no_pull_secret :
    corev1.ImagePullSecrets podSpec = [] →
    Load_run k container podSpec
      ([], Return (set_Image k (corev1.Image container)))
| load_unnamed_pull_secret (ref : corev1.LocalObjectReference)
    (others : list corev1.LocalObjectReference) :
    corev1.ImagePullSecrets podSpec = ref :: others →
    corev1.Name ref = "" →
    Load_run k container podSpec
      ([], Return (set_ImagePullSecrets
                     (set_Image k (corev1.Image container)) ""))
| load_secret_not_read (ref : corev1.LocalObjectReference)
    (others : list corev1.LocalObjectReference) (err : error) :
    corev1.ImagePullSecrets podSpec = ref :: others →
    corev1.Name ref ≠ "" →
    secrets w (Namespace k) (corev1.Name ref) = inl err →
    Load_run k container podSpec
      ([ev_SecretGet (Namespace k) (corev1.Name ref);
        ev_Log FatalLevel "Cannot read imagePullSecrets" (inr err)],
       Exit 1)
| load_secret_not_decoded (ref : corev1.LocalObjectReference)
    (others : list corev1.LocalObjectReference) (data : gmap string string)
    (creds : DockerCreds) (err : error) :
    corev1.ImagePullSecrets podSpec = ref :: others →
    corev1.Name ref ≠ "" →
    secrets w (Namespace k) (corev1.Name ref) = inr data →
    decode.Unmarshal store_DockerCreds
      (default "" (data !! corev1.DockerConfigJsonKey)) zeroDockerCreds
    = (creds, Some err) →
    Load_run k container podSpec
      ([ev_SecretGet (Namespace k) (corev1.Name ref);
        ev_Log FatalLevel
          "Cannot unmarshal docker configuration from imagePullSecrets"
          (inr err)],
       Exit 1)
| load_parsed (ref : corev1.LocalObjectReference)
    (others : list corev1.LocalObjectReference) (data : gmap string string)
    (creds : DockerCreds) :
    corev1.ImagePullSecrets podSpec = ref :: others →
    corev1.Name ref ≠ "" →
    secrets w (Namespace k) (corev1.Name ref) = inr data →
    decode.Unmarshal store_DockerCreds
      (default "" (data !! corev1.DockerConfigJsonKey)) zeroDockerCreds
    = (creds, None) →
    Load_run k container podSpec
      (emit (ev_SecretGet (Namespace k) (corev1.Name ref));;
       parseDockerConfig w
         (set_ImagePullSecrets (set_Image k (corev1.Image container))
            (corev1.Name ref))
         creds).

End runs.

(** What [GetEntrypointCmd] does with the [K8s] that [Load] returns. *)
Definition afterLoad (w : World) (podInfo : K8s) : M (slice.t * slice.t) :=
  let image :=
    if String.eqb (RegistryName podInfo) "" then Image podInfo
    else strings.TrimLeft (Image podInfo) (RegistryName podInfo +:+ "/") in
  let registryAddress :=
    if String.eqb (RegistryAddress podInfo) ""
    then "https://registry-1.docker.io/" else RegistryAddress podInfo in
  (if String.eqb (RegistryName podInfo) "" then mret ()
   else logger.Info "Trimmed registry name from image name"
          [RegistryName podInfo; Image podInfo]);;
  logger.Infoln "I'm using registry"
    [registryAddress; RegistryUsername podInfo; RegistryPassword podInfo];;
  GetImageBlob w registryAddress (RegistryUsername podInfo)
    (RegistryPassword podInfo) image.

(** The manifests a trace asks for. *)
Definition manifestRequests (t : list event) : list (string * string) :=
  omap (λ e,
          match e with
          | ev_ManifestV2 _ repository tag => Some (repository, tag)
          | _ => None
          end) t.

Definition isFatalLog (e : event) : bool :=
  match e with
  | ev_Log FatalLevel _ _ => true
  | _ => false
  end.

(** How a computation of this file may end: by returning, with nothing
    logged at Fatal level; by the exit of the process with status 1, right
    after one of the Fatal messages was logged; or by the panic of an index
    out of range. *)
Definition fails_fast {A : Type} (m : M A) : Prop :=
  match result m with
  | Return _ => Forall (λ e, isFatalLog e = false) (trace m)
  | Exit code =>
      code = 1
      ∧ ∃ t msg fields,
          trace m = t ++ [ev_Log FatalLevel msg fields] ∧ msg ∈ fatalMessages
  | Panic msg => msg = "runtime error: index out of range"
  end.

(** ** Vocabulary of the further properties *)

(** [s] is empty or starts with a byte that does not occur in [cutset]:
    [strings.TrimLeft] has nothing to take from it. *)
Definition startsOutside (cutset s : string) : bool :=
  match s with
  | "" => true
  | String c _ => negb (Bytes.elem c cutset)
  end.

(** The address [GetEntrypointCmd] goes to for a loaded [K8s]. *)
Definition addressUsed (k : K8s) : string :=
  if String.eqb (RegistryAddress k) "" then "https://registry-1.docker.io/"
  else RegistryAddress k.

(** *** Member names

    [encoding/json] gives a member of an object to the field whose name is
    its key up to the case of letters. *)

Definition toLower (c : ascii) : ascii :=
  if Bytes.within 0x41 0x5A c then Bytes.byte (Bytes.val c + 0x20) else c.

(** [key] is [name] up to the case of ASCII letters. *)
Fixpoint sameName (name key : string) : bool :=
  match name, key with
  | "", "" => true
  | String a name', String b key' =>
      Ascii.eqb (toLower a) (toLower b) && sameName name' key'
  | _, _ => false
  end.

(** The values of the members whose key names [name], in their order. *)
Definition valuesNamed (name : string) (members : list (string * json.value))
  : list json.value :=
  omap (λ '(key, j), if sameName name key then Some j else None) members.

(** The strings of an array of strings. *)
Fixpoint stringItems (items : list json.value) : option (list string) :=
  match items with
  | [] => Some []
  | json.Str s :: items' => (s ::.) <$> stringItems items'
  | _ :: _ => None
  end.

(** What the members naming a field of type [[]string] say: no strings when
    there is no such member or its value is [null], the strings of the array
    when there is one; nothing is said of other values and of a field named
    more than once. *)
Definition stringsOf (js : list json.value) : option (list string) :=
  match js with
  | [] | [json.Null] => Some []
  | [json.Array items] => stringItems items
  | _ => None
  end.

(** A value that goes into a [[]string] without a type error: [null], or an
    array of strings and [null]s. *)
Definition isStrings (j : json.value) : bool :=
  match j with
  | json.Null => true
  | json.Array items =>
      forallb (λ item, match item with
                       | json.Str _ | json.Null => true
                       | _ => false
                       end) items
  | _ => false
  end.

(** The entrypoint and the command a config blob gives, read off its JSON
    value: the arrays [Entrypoint] and [Cmd] of the member [config], whatever
    other members the blob and its [config] have. *)
Definition blobArrays (j : json.value) : option (list string * list string) :=
  match j with
  | json.Null => Some ([], [])
  | json.Object top =>
      match valuesNamed "config" top with
      | [] | [json.Null] => Some ([], [])
      | [json.Object members] =>
          entrypoint ← stringsOf (valuesNamed "Entrypoint" members);
          cmd ← stringsOf (valuesNamed "Cmd" members);
          Some (entrypoint, cmd)
      | _ => None
      end
  | _ => None
  end.

(** *** Docker configs *)

(** The entry of a registry under [auths]. *)
Definition authJSON (a : AuthConfig) : json.value :=
  json.Object [("username", json.Str (Username a));
               ("password", json.Str (Password a))].

(** A Docker config with the entries [entries] under [auths]. *)
Definition authsJSON (entries : list (string * AuthConfig)) : json.value :=
  json.Object [("auths", json.Object (prod_map id authJSON <$> entries))].

(** *** Blobs to run the examples on *)

Module sample.


(** A blob whose [Cmd] is one string, not an array of strings. *)
Definition shellFormBlob : string :=
  example.dq "{'config':{'Cmd':'nginx -g','Entrypoint':null}}".

(** The world of the examples with [blob] as the config blob of every
    image. *)
Definition serving (blob : string) : World := {|
  environ := environ example.world;
  secrets := secrets example.world;
  mapKeys := mapKeys example.world;
  ping := ping example.world;
  manifestV2 := manifestV2 example.world;
  downloadBlob := λ _ _ _, inr {| content := blob; readError := None |};
|}.

End sample.

(** *** JSON texts *)

(** A byte a JSON string literal holds as it is: an ASCII character that is
    no control character, no quotation mark and no backslash. *)
Definition plainByte (c : ascii) : bool :=
  (0x20 <=? Bytes.val c)%N && (Bytes.val c <? 0x80)%N
  && negb (Ascii.eqb c json.quote) && negb (Ascii.eqb c json.backslash).

(** A text of such bytes. *)
Fixpoint plain (s : string) : bool :=
  match s with
  | "" => true
  | String c s' => plainByte c && plain s'
  end.

(** The string literal of a plain text. *)
Definition quoted (s : string) : string :=
  String json.quote (s +:+ String json.quote "").

(** An array of string literals, written without white space; [moreItems]
    is what follows an element. *)
Fixpoint moreItems (items : list string) : string :=
  match items with
  | [] => "]"
  | item :: items' => "," +:+ quoted item +:+ moreItems items'
  end.

Definition arrayText (items : list string) : string :=
  match items with
  | [] => "[]"
  | item :: items' => "[" +:+ quoted item +:+ moreItems items'
  end.

(** The text [{"config":{"Cmd":[...],"Entrypoint":[...]}}]. *)
Definition blobText (cmd entrypoint : list string) : string :=
  "{" +:+ quoted "config" +:+ ":{"
      +:+ quoted "Cmd" +:+ ":" +:+ arrayText cmd +:+ ","
      +:+ quoted "Entrypoint" +:+ ":" +:+ arrayText entrypoint +:+ "}}".

(** The tokens of [moreItems] and [arrayText]. *)
Fixpoint moreTokens (items : list string) : list json.token :=
  match items with
  | [] => [json.RBracket]
  | item :: items' => json.Comma :: json.TString item :: moreTokens items'
  end.

Definition arrayTokens (items : list string) : list json.token :=
  match items with
  | [] => [json.LBracket; json.RBracket]
  | item :: items' => json.LBracket :: json.TString item :: moreTokens items'
  end.

(** The text
    [{"auths":{"<host>":{"username":"<u>","password":"<p>"}}}]. *)
Definition dockerConfigText (host : string) (a : AuthConfig) : string :=
  "{" +:+ quoted "auths" +:+ ":{" +:+ quoted host +:+ ":{"
      +:+ quoted "username" +:+ ":" +:+ quoted (Username a) +:+ ","
      +:+ quoted "password" +:+ ":" +:+ quoted (Password a) +:+ "}}}".

(** * Properties *)

(** ** Strings *)

Section string_facts.
Import Bytes strings.

Lemma app_String (c : ascii) (s t : string) :
  String c s +:+ t = String c (s +:+ t).
Proof. reflexivity. Qed.

Lemma app_empty (t : string) : "" +:+ t = t.
Proof. reflexivity. Qed.

Lemma elem_String (c d : ascii) (s : string) :
  elem c (String d s) = Ascii.eqb c d || elem c s.
Proof. reflexivity. Qed.

Lemma HasPrefix_app (p r : string) : HasPrefix (p +:+ r) p = true.
Proof.
  induction p as [|c p IH]; [reflexivity|].
  rewrite app_String. simpl. rewrite IH, Ascii.eqb_refl. reflexivity.
Qed.

Lemma HasPrefix_inv (s p : string) :
  HasPrefix s p = true → ∃ r, s = p +:+ r.
Proof.
  revert s. induction p as [|c p IH]; intros s H.
  - exists s. reflexivity.
  - destruct s as [|d s]; simpl in H; [discriminate|].
    apply andb_prop in H as [Hc Hp]. apply Ascii.eqb_eq in Hc as ->.
    destruct (IH _ Hp) as [r ->]. exists r. reflexivity.
Qed.

Lemma HasPrefix_iff (s p : string) :
  HasPrefix s p = true ↔ ∃ r, s = p +:+ r.
Proof.
  split; [apply HasPrefix_inv|]. intros [r ->]. apply HasPrefix_app.
Qed.

Lemma HasPrefix_byte (c d : ascii) (s : string) :
  HasPrefix (String d s) (String c "") = Ascii.eqb d c.
Proof. simpl. apply andb_true_r. Qed.

Lemma Index_byte_absent (c : ascii) (s : string) :
  elem c s = false → Index s (String c "") = None.
Proof.
  induction s as [|d s IH]; intros H; [reflexivity|].
  rewrite elem_String in H. apply orb_false_elim in H as [Hd Hs].
  change (Index (String d s) (String c ""))
    with (if HasPrefix (String d s) (String c "") then Some 0
          else S <$> Index s (String c "")).
  rewrite HasPrefix_byte, Ascii.eqb_sym, Hd, (IH Hs). reflexivity.
Qed.

Lemma Index_byte_first (c : ascii) (s t : string) :
  elem c s = false →
  Index (s +:+ String c t) (String c "") = Some (String.length s).
Proof.
  induction s as [|d s IH]; intros H.
  - rewrite app_empty. simpl. rewrite Ascii.eqb_refl. reflexivity.
  - rewrite elem_String in H. apply orb_false_elim in H as [Hd Hs].
    rewrite app_String.
    change (Index (String d (s +:+ String c t)) (String c ""))
      with (if HasPrefix (String d (s +:+ String c t)) (String c "") then Some 0
            else S <$> Index (s +:+ String c t) (String c "")).
    rewrite HasPrefix_byte, Ascii.eqb_sym, Hd, (IH Hs). reflexivity.
Qed.

Lemma take_app_length (s t : string) : take (String.length s) (s +:+ t) = s.
Proof.
  induction s as [|d s IH]; [destruct t; reflexivity|].
  rewrite app_String. simpl. rewrite IH. reflexivity.
Qed.

Lemma drop_app_length (s t : string) (c : ascii) :
  drop (String.length s + 1) (s +:+ String c t) = t.
Proof.
  induction s as [|d s IH]; [reflexivity|].
  rewrite app_String. simpl. exact IH.
Qed.

(** Cutting at the first [sep]: what [SplitN(s, sep, 2)] gives for a one-byte
    separator. *)
Lemma SplitN_2_cut (c : ascii) (s t : string) :
  elem c s = false → SplitN (s +:+ String c t) (String c "") 2 = [s; t].
Proof.
  intros H. unfold SplitN. simpl String.eqb. cbv iota.
  unfold splitLoop. rewrite (Index_byte_first c s t H).
  rewrite take_app_length.
  change (String.length (String c "")) with 1.
  rewrite drop_app_length. reflexivity.
Qed.

Lemma SplitN_2_whole (c : ascii) (s : string) :
  elem c s = false → SplitN s (String c "") 2 = [s].
Proof.
  intros H. unfold SplitN. simpl String.eqb. cbv iota.
  unfold splitLoop. rewrite (Index_byte_absent c s H). reflexivity.
Qed.

End string_facts.

(** ** The image parser *)

Section image_parser.
Import Bytes.

Lemma beforeFirstColon_no_colon (s : string) :
  elem ":" (beforeFirstColon s) = false.
Proof.
  induction s as [|c s IH]; [reflexivity|].
  change (beforeFirstColon (String c s))
    with (if Ascii.eqb c ":" then "" else String c (beforeFirstColon s)).
  destruct (Ascii.eqb c ":") eqn:E; [reflexivity|].
  rewrite elem_String, Ascii.eqb_sym, E. exact IH.
Qed.

Lemma first_colon_cut (s : string) :
  elem ":" s = true → s = beforeFirstColon s +:+ String ":" (afterFirstColon s).
Proof.
  induction s as [|c s IH]; intros H; [discriminate|].
  rewrite elem_String, Ascii.eqb_sym in H.
  change (beforeFirstColon (String c s))
    with (if Ascii.eqb c ":" then "" else String c (beforeFirstColon s)).
  change (afterFirstColon (String c s))
    with (if Ascii.eqb c ":" then s else afterFirstColon s).
  destruct (Ascii.eqb c ":") eqn:E.
  - apply Ascii.eqb_eq in E as ->. reflexivity.
  - rewrite app_String. f_equal. apply IH. exact H.
Qed.

Lemma ParseContainerImage_cut (repository tag : string) :
  elem ":" repository = false →
  ParseContainerImage (repository +:+ String ":" tag) = mret (repository, tag).
Proof.
  intros H. unfold ParseContainerImage.
  change ":" with (String ":"%char "") at 2.
  rewrite (SplitN_2_cut _ _ _ H). reflexivity.
Qed.

Lemma ParseContainerImage_no_colon (image : string) :
  elem ":" image = false →
  ParseContainerImage image
  = logger.Fatal "Cannot find tag for image" (inl [image]).
Proof.
  intros H. unfold ParseContainerImage.
  change ":" with (String ":"%char "").
  rewrite (SplitN_2_whole _ _ H). reflexivity.
Qed.

Lemma ParseContainerImage_colon (image : string) :
  elem ":" image = true →
  ParseContainerImage image
  = mret (beforeFirstColon image, afterFirstColon image).
Proof.
  intros H. rewrite (first_colon_cut image H) at 1.
  exact (ParseContainerImage_cut _ _ (beforeFirstColon_no_colon image)).
Qed.

(** C3: for an image [repository:tag], where the colon written is its first
    one (the repository has none, the tag may have more), the parser returns
    the text before that colon as repository and all of the rest as tag. *)
Theorem ParseContainerImage_splits_at_first_colon (repository tag : string) :
  elem ":" repository = false →
  ParseContainerImage (repository +:+ ":" +:+ tag) = ([], Return (repository, tag)).
Proof. intros H. exact (ParseContainerImage_cut repository tag H). Qed.

(** C3 at the spec's example: [parse "nginx:1.19" = ("nginx", "1.19")]. *)
Lemma ParseContainerImage_nginx :
  elem ":" "nginx" = false
  ∧ ParseContainerImage "nginx:1.19" = ([], Return ("nginx", "1.19")).
Proof.
  split; [reflexivity|].
  exact (ParseContainerImage_splits_at_first_colon "nginx" "1.19" eq_refl).
Defined.

(** C9: an image with at least one colon never makes the parser fail; the
    repository returned is the text before the first colon and the tag is
    everything after it, further colons and slashes included. *)
Theorem ParseContainerImage_tag_is_the_remainder (image : string) :
  elem ":" image = true →
  ParseContainerImage image
  = ([], Return (beforeFirstColon image, afterFirstColon image))
  ∧ image = beforeFirstColon image +:+ ":" +:+ afterFirstColon image
  ∧ elem ":" (beforeFirstColon image) = false.
Proof.
  intros H. pose proof (first_colon_cut image H) as Hcut.
  pose proof (beforeFirstColon_no_colon image) as Hno.
  split; [|split; [exact Hcut | exact Hno]].
  exact (ParseContainerImage_colon image H).
Qed.

(** C9 at an image whose registry host carries a port. *)
Lemma ParseContainerImage_host_with_port :
  elem ":" "localhost:5000/nginx:1.19" = true
  ∧ ParseContainerImage "localhost:5000/nginx:1.19"
    = ([], Return ("localhost", "5000/nginx:1.19")).
Proof.
  split; [reflexivity|].
  exact (proj1 (ParseContainerImage_tag_is_the_remainder
                  "localhost:5000/nginx:1.19" eq_refl)).
Defined.

End image_parser.

(** ** Credentials *)

Section credentials.
#[local] Arguments strings.HasPrefix : simpl never.

Lemma mapKeys_empty (w : World) :
  MapKeys_lists_keys w → mapKeys w ∅ = [].
Proof.
  intros Hw. specialize (Hw ∅). rewrite map_to_list_empty in Hw.
  apply Permutation_nil_r in Hw. exact Hw.
Qed.

Lemma mapKeys_nil_inv (w : World) (m : gmap string AuthConfig) :
  MapKeys_lists_keys w → mapKeys w m = [] → m = ∅.
Proof.
  intros Hw H. specialize (Hw m). rewrite H in Hw.
  symmetry in Hw. apply Permutation_nil_r in Hw.
  apply fmap_nil_inv in Hw. apply map_to_list_empty_iff. exact Hw.
Qed.

(** The host [MapKeys()[0]] picks is a key of the map. *)
Lemma mapKeys_head_is_key (w : World) (m : gmap string AuthConfig)
    (host : string) (hosts : list string) :
  MapKeys_lists_keys w → mapKeys w m = host :: hosts → is_Some (m !! host).
Proof.
  intros Hw H. specialize (Hw m). rewrite H in Hw.
  assert (host ∈ (map_to_list m).*1) as Hin.
  { rewrite <- Hw. apply list_elem_of_here. }
  apply list_elem_of_fmap in Hin as [[k v] [-> Hkv]].
  apply elem_of_map_to_list in Hkv. exists v. exact Hkv.
Qed.

Lemma parseDockerConfig_selected (w : World) (k : K8s) (creds : DockerCreds)
    (host : string) (hosts : list string) :
  mapKeys w (Auths creds) = host :: hosts →
  parseDockerConfig w k creds
  = ([], Return
       {| Namespace := Namespace k;
          ImagePullSecrets := ImagePullSecrets k;
          RegistryAddress :=
            if strings.HasPrefix host "https://" then host else "https://" +:+ host;
          RegistryName := host;
          RegistryUsername := Username (default zeroAuthConfig (Auths creds !! host));
          RegistryPassword := Password (default zeroAuthConfig (Auths creds !! host));
          Image := Image k |}).
Proof.
  intros H. unfold parseDockerConfig. rewrite H. cbn.
  destruct (strings.HasPrefix host "https://"); reflexivity.
Qed.

Lemma parseDockerConfig_no_key (w : World) (k : K8s) (creds : DockerCreds) :
  mapKeys w (Auths creds) = [] →
  parseDockerConfig w k creds = ([], Panic "runtime error: index out of range").
Proof. intros H. unfold parseDockerConfig. rewrite H. reflexivity. Qed.

(** [Load] up to the call of [parseDockerConfig], for a pod whose first pull
    secret is named and holds a payload that decodes. *)
Lemma Load_reaches_parseDockerConfig (w : World) (k : K8s) (container : corev1.Container)
    (podSpec : corev1.PodSpec) (ref : corev1.LocalObjectReference)
    (others : list corev1.LocalObjectReference) (data : gmap string string)
    (creds : DockerCreds) :
  corev1.ImagePullSecrets podSpec = ref :: others →
  corev1.Name ref ≠ "" →
  secrets w (Namespace k) (corev1.Name ref) = inr data →
  decode.Unmarshal store_DockerCreds
    (default "" (data !! corev1.DockerConfigJsonKey)) zeroDockerCreds = (creds, None) →
  Load w k container podSpec
  = (emit (ev_SecretGet (Namespace k) (corev1.Name ref));;
     parseDockerConfig w
       (set_ImagePullSecrets (set_Image k (corev1.Image container)) (corev1.Name ref)) creds).
Proof.
  intros Hrefs Hname Hsecret Hjson. unfold Load. rewrite Hrefs. cbn.
  apply String.eqb_neq in Hname. rewrite Hname. cbn.
  rewrite Hsecret. cbn. rewrite Hjson. cbn.
  destruct (parseDockerConfig _ _ _) as [t [k'| |]]; reflexivity.
Qed.

(** C4: credential resolution, for a pod whose first pull secret is named,
    can be read and decodes: the registry address is the selected host of
    [auths] with [https://] put before it exactly when the host does not
    start with [https://], and the username and password are those of that
    host's entry. *)
Theorem Load_derives_address_and_credentials (w : World) (k : K8s)
    (container : corev1.Container) (podSpec : corev1.PodSpec) (ref : corev1.LocalObjectReference)
    (others : list corev1.LocalObjectReference) (data : gmap string string)
    (creds : DockerCreds) (host : string) (hosts : list string)
    (entry : AuthConfig) :
  corev1.ImagePullSecrets podSpec = ref :: others →
  corev1.Name ref ≠ "" →
  secrets w (Namespace k) (corev1.Name ref) = inr data →
  decode.Unmarshal store_DockerCreds
    (default "" (data !! corev1.DockerConfigJsonKey)) zeroDockerCreds = (creds, None) →
  mapKeys w (Auths creds) = host :: hosts →
  Auths creds !! host = Some entry →
  Load w k container podSpec
  = ([ev_SecretGet (Namespace k) (corev1.Name ref)],
     Return
       {| Namespace := Namespace k;
          ImagePullSecrets := corev1.Name ref;
          RegistryAddress :=
            if strings.HasPrefix host "https://" then host else "https://" +:+ host;
          RegistryName := host;
          RegistryUsername := Username entry;
          RegistryPassword := Password entry;
          Image := corev1.Image container |})
  ∧ (strings.HasPrefix host "https://" = true ↔ ∃ rest, host = "https://" +:+ rest).
Proof.
  intros Hrefs Hname Hsecret Hjson Hkeys Hentry.
  split; [|apply HasPrefix_iff].
  rewrite (Load_reaches_parseDockerConfig _ _ _ _ _ _ _ _ Hrefs Hname Hsecret Hjson).
  rewrite (parseDockerConfig_selected _ _ _ _ _ Hkeys), Hentry. reflexivity.
Qed.

(** C4 at the spec's example: the payload
    [{"auths":{"myregistry.io":{"username":"u","password":"p"}}}]. *)
Lemma Load_myregistry :
  let w := example.world in
  let k := newK8s "default" in
  let podSpec := example.podSpec ["regcred"] in
  let data : gmap string string := {[ corev1.DockerConfigJsonKey := example.pullSecret ]} in
  let entry := {| Username := "u"; Password := "p" |} in
  let creds := {| Auths := {[ "myregistry.io" := entry ]} |} in
  (corev1.ImagePullSecrets podSpec = {| corev1.Name := "regcred" |} :: []
   ∧ "regcred" ≠ ""
   ∧ secrets w "default" "regcred" = inr data
   ∧ decode.Unmarshal store_DockerCreds
       (default "" (data !! corev1.DockerConfigJsonKey)) zeroDockerCreds = (creds, None)
   ∧ mapKeys w (Auths creds) = ["myregistry.io"]
   ∧ Auths creds !! "myregistry.io" = Some entry)
  ∧ Load w k (example.container "myregistry.io/app:2.0") podSpec
    = ([ev_SecretGet "default" "regcred"],
       Return
         {| Namespace := "default";
            ImagePullSecrets := "regcred";
            RegistryAddress := "https://myregistry.io";
            RegistryName := "myregistry.io";
            RegistryUsername := "u";
            RegistryPassword := "p";
            Image := "myregistry.io/app:2.0" |}).
Proof.
  assert (H : corev1.ImagePullSecrets (example.podSpec ["regcred"])
              = {| corev1.Name := "regcred" |} :: []
            ∧ "regcred" ≠ ""
            ∧ secrets example.world "default" "regcred"
              = inr {[ corev1.DockerConfigJsonKey := example.pullSecret ]}
            ∧ decode.Unmarshal store_DockerCreds
                (default ""
                   (({[ corev1.DockerConfigJsonKey := example.pullSecret ]}
                     : gmap string string) !! corev1.DockerConfigJsonKey))
                zeroDockerCreds
              = ({| Auths := {[ "myregistry.io" := {| Username := "u"; Password := "p" |} ]} |},
                 None)
            ∧ mapKeys example.world
                {[ "myregistry.io" := {| Username := "u"; Password := "p" |} ]}
              = ["myregistry.io"]
            ∧ ({[ "myregistry.io" := {| Username := "u"; Password := "p" |} ]}
               : gmap string AuthConfig) !! "myregistry.io"
              = Some {| Username := "u"; Password := "p" |}).
  { repeat split; try (vm_compute; reflexivity). discriminate. }
  split; [exact H|].
  destruct H as (H1 & H2 & H3 & H4 & H5 & H6).
  exact (proj1 (Load_derives_address_and_credentials example.world
                  (newK8s "default") (example.container "myregistry.io/app:2.0")
                  _ _ _ _ _ _ _ _ H1 H2 H3 H4 H5 H6)).
Defined.

(** C8: [parseDockerConfig] takes [MapKeys()[0]] without looking at the
    length: on a decoded [DockerCreds] whose [auths] has no entry it panics
    with an index out of range, and it returns exactly when [auths] has at
    least one entry. *)
Theorem parseDockerConfig_needs_an_auths_entry (w : World) (k : K8s)
    (creds : DockerCreds) :
  MapKeys_lists_keys w →
  (Auths creds = ∅ ↔
   parseDockerConfig w k creds = ([], Panic "runtime error: index out of range"))
  ∧ (Auths creds ≠ ∅ ↔ ∃ k', parseDockerConfig w k creds = ([], Return k')).
Proof.
  intros Hw.
  destruct (mapKeys w (Auths creds)) as [|host hosts] eqn:Hkeys.
  - pose proof (mapKeys_nil_inv _ _ Hw Hkeys) as Hempty.
    rewrite (parseDockerConfig_no_key _ _ _ Hkeys).
    split; split; try done.
    intros [k' Hk']. discriminate.
  - assert (Auths creds ≠ ∅) as Hne.
    { intros Hempty. rewrite Hempty, (mapKeys_empty _ Hw) in Hkeys. discriminate. }
    rewrite (parseDockerConfig_selected _ _ _ _ _ Hkeys).
    split; split; try done.
    intros _. eexists. reflexivity.
Qed.

(** C8 at the payload [{"auths":{}}]: it decodes without an error, so it is
    not reported as a malformed secret, and [parseDockerConfig] panics on
    what it decodes to. *)
Lemma parseDockerConfig_empty_auths_payload :
  MapKeys_lists_keys example.world
  ∧ decode.Unmarshal store_DockerCreds example.emptyAuths zeroDockerCreds
    = ({| Auths := ∅ |}, None)
  ∧ parseDockerConfig example.world (newK8s "default") {| Auths := ∅ |}
    = ([], Panic "runtime error: index out of range").
Proof.
  assert (Hw : MapKeys_lists_keys example.world) by (intros m; reflexivity).
  split; [exact Hw|]. split; [vm_compute; reflexivity|].
  exact (proj1 (proj1 (parseDockerConfig_needs_an_auths_entry example.world
                         (newK8s "default") {| Auths := ∅ |} Hw)) eq_refl).
Defined.

(** The same payload through [Load]: the Secret is read, nothing is logged,
    and the call panics. *)
Example Load_empty_auths_panics :
  Load example.world (newK8s "default") (example.container "nginx:1.19")
    (example.podSpec ["noauths"])
  = ([ev_SecretGet "default" "noauths"],
     Panic "runtime error: index out of range").
Proof. vm_compute. reflexivity. Qed.

End credentials.

(** ** The registry client *)

Section registry_client.
Import Bytes.

#[local] Arguments String.eqb : simpl never.
#[local] Arguments hub.New : simpl never.
#[local] Arguments hub.NewInsecure : simpl never.

Lemma session_setup (w : World) (url username password : string) :
  (if String.eqb (environ w "REGISTRY_SKIP_VERIFY") "true"
   then hub.NewInsecure w url username password
   else hub.New w url username password)
  = ([ev_session w url username password],
     Return (match ping w (session w url username password) with
             | Some err => inl err
             | None => inr (session w url username password)
             end)).
Proof.
  unfold ev_session, session, skipVerify.
  destruct (String.eqb (environ w "REGISTRY_SKIP_VERIFY") "true"); reflexivity.
Qed.

(** Every call of [GetImageBlob] takes one of the paths of
    [GetImageBlob_run]. *)
Lemma GetImageBlob_runs (w : World) (url username password image : string) :
  GetImageBlob_run w url username password image
    (GetImageBlob w url username password image).
Proof.
  unfold GetImageBlob.
  destruct (elem ":" image) eqn:Hcolon.
  2: { rewrite (ParseContainerImage_no_colon image Hcolon).
       apply blob_missing_tag. exact Hcolon. }
  rewrite (ParseContainerImage_colon image Hcolon).
  cbn. rewrite session_setup. cbn.
  destruct (ping w (session w url username password)) as [err|] eqn:Hping.
  { cbn. apply (blob_no_session w _ _ _ _ err); assumption. }
  cbn.
  destruct (manifestV2 w (session w url username password)
              (beforeFirstColon image) (afterFirstColon image))
    as [err|digest] eqn:Hmanifest.
  { cbn. apply (blob_no_manifest w _ _ _ _ err); assumption. }
  cbn.
  destruct (downloadBlob w (session w url username password)
              (beforeFirstColon image) digest) as [err|reader] eqn:Hblob.
  { cbn. apply (blob_no_blob w _ _ _ _ digest err); assumption. }
  cbn.
  destruct (readError reader) as [err|] eqn:Hread.
  { cbn. apply (blob_unreadable w _ _ _ _ digest reader err); assumption. }
  cbn.
  destruct (decode.Unmarshal store_BlobResponse (content reader) zeroBlobResponse)
    as [msg [err|]] eqn:Hjson.
  { cbn. apply (blob_not_decoded w _ _ _ _ digest reader msg err); assumption. }
  cbn. apply (blob_returned w _ _ _ _ digest reader msg); assumption.
Qed.

(** [GetImageBlob] opens one session when the image has a tag, none
    otherwise, and sends its requests through that session. *)
Lemma GetImageBlob_sessions (w : World) (url username password image : string) :
  sessionsOpened (trace (GetImageBlob w url username password image))
  = (if elem ":" image then [session w url username password] else [])
  ∧ Forall (λ h, h = session w url username password)
      (sessionsUsed (trace (GetImageBlob w url username password image))).
Proof.
  destruct (GetImageBlob_runs w url username password image) as
    [Hc|err Hc ?|err h r tg Hc|d err h r tg Hc|d rd err h r tg Hc
    |d rd msg err h r tg Hc|d rd msg h r tg Hc];
    rewrite Hc; try subst h; unfold trace, ev_session, session;
    destruct (skipVerify w); cbn;
    (split; [reflexivity | repeat constructor]).
Qed.

(** [GetImageBlob] reads no Secret. *)
Lemma GetImageBlob_reads_no_secret (w : World)
    (url username password image : string) :
  secretsRead (trace (GetImageBlob w url username password image)) = [].
Proof.
  destruct (GetImageBlob_runs w url username password image);
    unfold trace, ev_session; destruct (skipVerify w); reflexivity.
Qed.

(** C6: the registry client reads the toggle [REGISTRY_SKIP_VERIFY] and
    sets up its one session with certificate verification bypassed exactly
    when the value is [true]; with any other value, or none, the session
    verifies.  Every request of the call goes through that session. *)
Theorem skip_verify_is_opt_in (w : World) (url username password image : string) :
  let t := trace (GetImageBlob w url username password image) in
  let insecure := String.eqb (environ w "REGISTRY_SKIP_VERIFY") "true" in
  sessionsOpened t
  = (if elem ":" image
     then [ {| registry.InsecureSkipVerify := insecure; registry.URL := url;
               registry.Username := username; registry.Password := password |} ]
     else [])
  ∧ Forall (λ h, registry.InsecureSkipVerify h = insecure) (sessionsUsed t)
  ∧ (insecure = true ↔ environ w "REGISTRY_SKIP_VERIFY" = "true").
Proof.
  intros t insecure.
  destruct (GetImageBlob_sessions w url username password image) as [Ho Hu].
  split; [exact Ho|]. split; [|apply String.eqb_eq].
  eapply Forall_impl; [exact Hu|]. intros h ->. reflexivity.
Qed.

(** C6 in the two example worlds. *)
Example skip_verify_examples :
  sessionsOpened
    (trace (GetImageBlob example.world "https://r.example" "u" "p" "app:1"))
  = [ {| registry.InsecureSkipVerify := false; registry.URL := "https://r.example";
         registry.Username := "u"; registry.Password := "p" |} ]
  ∧ sessionsOpened
      (trace (GetImageBlob example.insecureWorld "https://r.example" "u" "p" "app:1"))
    = [ {| registry.InsecureSkipVerify := true; registry.URL := "https://r.example";
           registry.Username := "u"; registry.Password := "p" |} ].
Proof. split; vm_compute; reflexivity. Qed.

End registry_client.

(** ** Decoding the config blob *)

Section blob_decoding.
Import json decode.

Lemma findField_config : findField ["config"] "config" 0 None = Some 0.
Proof. vm_compute. reflexivity. Qed.

Lemma findField_Cmd : findField ["Cmd"; "Entrypoint"] "Cmd" 0 None = Some 0.
Proof. vm_compute. reflexivity. Qed.

Lemma findField_Entrypoint :
  findField ["Cmd"; "Entrypoint"] "Entrypoint" 0 None = Some 1.
Proof. vm_compute. reflexivity. Qed.

(** The loop of [d.array] over an array of strings, entered with a slice of
    length [i]: the strings are appended in their order. *)
Lemma arrayLoop_strings (l : list string) :
  ∀ (i : nat) (v : slice.t),
    slice.len v = i → i ≤ slice.cap v →
    ∃ v', arrayLoop (Str <$> l) i v = (i + length l, v', [])
          ∧ slice.len v' = i + length l
          ∧ slice.elements v' = slice.elements v ++ l.
Proof.
  induction l as [|x l IH]; intros i v Hlen Hcap.
  - exists v. cbn. rewrite Nat.add_0_r, app_nil_r. done.
  - cbn [fmap list_fmap arrayLoop].
    set (v1 := if slice.cap v <=? i
               then slice.grow v
                      (if slice.cap v + slice.cap v / 2 <? 4 then 4
                       else slice.cap v + slice.cap v / 2)
               else v).
    assert (slice.len v1 = i ∧ i < slice.cap v1
            ∧ take i (slice.array v1) = take i (slice.array v))
      as (Hlen1 & Hcap1 & Htake1).
    { subst v1. destruct (Nat.leb_spec (slice.cap v) i) as [Hle|Hlt].
      - assert (slice.cap v = i) as Hci by lia.
        set (newcap := if slice.cap v + slice.cap v / 2 <? 4 then 4
                       else slice.cap v + slice.cap v / 2).
        assert (i < newcap) as Hnew.
        { subst newcap. destruct (Nat.ltb_spec (slice.cap v + slice.cap v / 2) 4).
          - pose proof (Nat.div_mod_eq (slice.cap v) 2).
            pose proof (Nat.mod_upper_bound (slice.cap v) 2). lia.
          - pose proof (Nat.div_mod_eq (slice.cap v) 2).
            pose proof (Nat.mod_upper_bound (slice.cap v) 2). lia. }
        unfold slice.grow, slice.cap in *. cbn. rewrite Hlen.
        split; [done|]. split.
        + rewrite length_app, length_take, length_replicate. lia.
        + rewrite take_app_le by (rewrite length_take; lia).
          rewrite take_take. f_equal. lia.
      - done. }
    clearbody v1.
    destruct (Nat.leb_spec (slice.len v1) i) as [_|Hlt]; [|lia].
    cbn [string_].
    destruct (IH (S i) (slice.SetIndex (slice.SetLen v1 (S i)) i x))
      as (v' & Hloop & Hlen' & Helem').
    { reflexivity. }
    { unfold slice.cap, slice.SetIndex, slice.SetLen in *. cbn.
      rewrite length_insert. lia. }
    exists v'. rewrite Hloop. cbn.
    split; [f_equal; f_equal; lia|]. split; [lia|].
    rewrite Helem'. unfold slice.elements, slice.SetIndex, slice.SetLen. cbn.
    unfold slice.cap in Hcap1.
    rewrite (take_S_r _ _ x) by (apply list_lookup_insert_eq; lia).
    rewrite take_insert_ge by lia.
    rewrite Htake1, Hlen. rewrite <- app_assoc. reflexivity.
Qed.

(** An array of strings stored into a nil slice gives those strings. *)
Lemma strings_array (l : list string) :
  ∃ v, strings_ (Array (Str <$> l)) slice.nil = (v, [])
       ∧ slice.elements v = l.
Proof.
  destruct (arrayLoop_strings l 0 slice.nil eq_refl (Nat.le_0_l _))
    as (v' & Hloop & Hlen' & Helem').
  unfold strings_. rewrite Hloop. cbn [Nat.add] in *.
  rewrite Hlen', Nat.ltb_irrefl.
  destruct l as [|x l].
  - eexists. split; reflexivity.
  - exists v'. split; [reflexivity | exact Helem'].
Qed.

Lemma store_Config_members (cmd entrypoint : option (list string))
    (members : list (string * value)) :
  blobMembers cmd entrypoint members →
  ∃ c, store_Config (Object members) zeroConfig = (c, [])
       ∧ slice.elements (Cmd c) = default [] cmd
       ∧ slice.elements (Entrypoint c) = default [] entrypoint.
Proof.
  unfold blobMembers, store_Config, struct_. intros Hperm. symmetry in Hperm.
  destruct cmd as [cmd|], entrypoint as [ep|]; cbn [arrayMember app] in Hperm.
  - apply Permutation_length_2_inv in Hperm as [-> | ->]; cbn [foldl].
    + rewrite findField_Cmd. cbn [zeroConfig Cmd Entrypoint].
      destruct (strings_array cmd) as (vc & -> & Hc).
      cbv beta iota. rewrite findField_Entrypoint. cbn [Cmd Entrypoint].
      destruct (strings_array ep) as (ve & -> & He).
      eexists. split; [reflexivity|]. split; assumption.
    + rewrite findField_Entrypoint. cbn [zeroConfig Cmd Entrypoint].
      destruct (strings_array ep) as (ve & -> & He).
      cbv beta iota. rewrite findField_Cmd. cbn [Cmd Entrypoint].
      destruct (strings_array cmd) as (vc & -> & Hc).
      eexists. split; [reflexivity|]. split; assumption.
  - apply Permutation_length_1_inv in Hperm as ->. cbn [foldl].
    rewrite findField_Cmd. cbn [zeroConfig Cmd Entrypoint].
    destruct (strings_array cmd) as (vc & -> & Hc).
    eexists. split; [reflexivity|]. split; [assumption | reflexivity].
  - apply Permutation_length_1_inv in Hperm as ->. cbn [foldl].
    rewrite findField_Entrypoint. cbn [zeroConfig Cmd Entrypoint].
    destruct (strings_array ep) as (ve & -> & He).
    eexists. split; [reflexivity|]. split; [reflexivity | assumption].
  - apply Permutation_nil in Hperm as ->.
    eexists. split; [reflexivity|]. split; reflexivity.
Qed.

(** C7: a config blob of the shape [{"config":{"Cmd":[...],"Entrypoint":[...]}}]
    decodes without an error into a [BlobResponse] whose [Config] holds the
    strings of the two arrays in their order; an array that is absent from
    the object decodes as the empty sequence. *)
Theorem blob_decodes_to_its_arrays (data : string)
    (members : list (string * value)) (cmd entrypoint : option (list string)) :
  json.parse data = Some (blobJSON members) →
  blobMembers cmd entrypoint members →
  ∃ msg, Unmarshal store_BlobResponse data zeroBlobResponse = (msg, None)
         ∧ slice.elements (Cmd (Config_ msg)) = default [] cmd
         ∧ slice.elements (Entrypoint (Config_ msg)) = default [] entrypoint.
Proof.
  intros Hparse Hmembers. unfold Unmarshal. rewrite Hparse.
  unfold blobJSON, store_BlobResponse, struct_. cbn [foldl].
  rewrite findField_config. cbn [zeroBlobResponse Config_].
  destruct (store_Config_members cmd entrypoint members Hmembers)
    as (c & -> & Hc & He).
  eexists. split; [reflexivity|]. split; assumption.
Qed.

(** C7 at the spec's example,
    [{"config":{"Cmd":["nginx","-g","daemon off;"],"Entrypoint":[]}}]. *)
Lemma blob_nginx :
  let members :=
    [("Cmd", Array [Str "nginx"; Str "-g"; Str "daemon off;"]);
     ("Entrypoint", Array [])] in
  (json.parse example.configBlob = Some (blobJSON members)
   ∧ blobMembers (Some ["nginx"; "-g"; "daemon off;"]) (Some []) members)
  ∧ ∃ msg, Unmarshal store_BlobResponse example.configBlob zeroBlobResponse
           = (msg, None)
           ∧ slice.elements (Cmd (Config_ msg)) = ["nginx"; "-g"; "daemon off;"]
           ∧ slice.elements (Entrypoint (Config_ msg)) = [].
Proof.
  assert (H : json.parse example.configBlob
              = Some (blobJSON
                        [("Cmd", Array [Str "nginx"; Str "-g"; Str "daemon off;"]);
                         ("Entrypoint", Array [])]))
    by (vm_compute; reflexivity).
  assert (Hm : blobMembers (Some ["nginx"; "-g"; "daemon off;"]) (Some [])
                 [("Cmd", Array [Str "nginx"; Str "-g"; Str "daemon off;"]);
                  ("Entrypoint", Array [])])
    by (unfold blobMembers; reflexivity).
  split; [split; [exact H | exact Hm]|].
  exact (blob_decodes_to_its_arrays example.configBlob _
           (Some ["nginx"; "-g"; "daemon off;"]) (Some []) H Hm).
Defined.

(** A blob whose [Entrypoint] comes first and whose [Cmd] is absent, run
    through [GetImageBlob]. *)
Example GetImageBlob_entrypoint_only :
  let w := {|
    environ := environ example.world;
    secrets := secrets example.world;
    mapKeys := mapKeys example.world;
    ping := ping example.world;
    manifestV2 := manifestV2 example.world;
    downloadBlob := λ _ _ _,
      inr {| content := example.dq "{'config':{'Entrypoint':['/bin/sh','-c']}}";
             readError := None |} |} in
  match result (GetImageBlob w "https://r.example" "" "" "app:1") with
  | Return (entrypoint, cmd) =>
      slice.elements entrypoint = ["/bin/sh"; "-c"] ∧ slice.elements cmd = []
  | _ => False
  end.
Proof. vm_compute. split; reflexivity. Qed.

End blob_decoding.

(** ** The orchestrator *)

Section orchestrator.
#[local] Arguments String.eqb : simpl never.
#[local] Arguments strings.HasPrefix : simpl never.
#[local] Arguments strings.TrimLeft : simpl never.
#[local] Arguments GetImageBlob : simpl never.
#[local] Arguments parseDockerConfig : simpl never.

(** Every call of [Load] takes one of the paths of [Load_run]. *)
Lemma Load_runs (w : World) (k : K8s) (container : corev1.Container)
    (podSpec : corev1.PodSpec) :
  Load_run w k container podSpec (Load w k container podSpec).
Proof.
  unfold Load.
  destruct (corev1.ImagePullSecrets podSpec) as [|ref others] eqn:Hrefs.
  { apply load_no_pull_secret. exact Hrefs. }
  cbn.
  destruct (String.eqb_spec (corev1.Name ref) "") as [Hname|Hname].
  { cbn. rewrite Hname.
    apply (load_unnamed_pull_secret w _ _ _ ref others); assumption. }
  cbn.
  destruct (secrets w (Namespace k) (corev1.Name ref)) as [err|data] eqn:Hsecret.
  { cbn. apply (load_secret_not_read w _ _ _ ref others err); assumption. }
  cbn.
  destruct (decode.Unmarshal store_DockerCreds
              (default "" (data !! corev1.DockerConfigJsonKey)) zeroDockerCreds)
    as [creds [err|]] eqn:Hjson.
  { cbn. apply (load_secret_not_decoded w _ _ _ ref others data creds err);
      assumption. }
  pose proof (load_parsed w k container podSpec ref others data creds
                Hrefs Hname Hsecret Hjson) as Hrun.
  cbn in Hrun |- *.
  destruct (parseDockerConfig _ _ _) as [t [k'| |]]; exact Hrun.
Qed.

(** [GetEntrypointCmd] is [Load] followed by [afterLoad]. *)
Lemma GetEntrypointCmd_Load (w : World) (namespace : string)
    (container : corev1.Container) (podSpec : corev1.PodSpec) :
  GetEntrypointCmd w namespace container podSpec
  = Load w (newK8s namespace) container podSpec ≫= afterLoad w.
Proof.
  unfold GetEntrypointCmd.
  destruct (Load w (newK8s namespace) container podSpec) as [t [k| |]];
    [|reflexivity|reflexivity].
  unfold afterLoad. cbn.
  destruct (String.eqb (RegistryName k) ""); cbn;
    destruct (GetImageBlob _ _ _ _ _) as [t' [r| |]]; reflexivity.
Qed.

Lemma GetEntrypointCmd_after_Load (w : World) (namespace : string)
    (container : corev1.Container) (podSpec : corev1.PodSpec) (k : K8s) :
  Load w (newK8s namespace) container podSpec = ([], Return k) →
  RegistryName k = "" →
  RegistryAddress k = "" →
  GetEntrypointCmd w namespace container podSpec
  = (logger.Infoln "I'm using registry"
       ["https://registry-1.docker.io/"; RegistryUsername k; RegistryPassword k];;
     GetImageBlob w "https://registry-1.docker.io/" (RegistryUsername k)
       (RegistryPassword k) (Image k)).
Proof.
  intros HLoad Hname Haddr. rewrite GetEntrypointCmd_Load, HLoad.
  change (([], Return k) ≫= afterLoad w)
    with (let '(t', o) := afterLoad w k in ([] ++ t', o)).
  unfold afterLoad. rewrite Hname, Haddr. cbn.
  destruct (GetImageBlob _ _ _ _ _) as [t [r| |]]; reflexivity.
Qed.

(** C5: for a pod with no image pull secret, [Load] reads nothing and leaves
    the registry name, address, username and password empty, and
    [GetEntrypointCmd] then calls the registry client with the address
    [https://registry-1.docker.io/] and empty credentials. *)
Theorem no_pull_secret_defaults_to_public_registry (w : World)
    (namespace : string) (container : corev1.Container) :
  Load w (newK8s namespace) container {| corev1.ImagePullSecrets := [] |}
  = ([], Return
       {| Namespace := namespace; ImagePullSecrets := "";
          RegistryAddress := ""; RegistryName := "";
          RegistryUsername := ""; RegistryPassword := "";
          Image := corev1.Image container |})
  ∧ GetEntrypointCmd w namespace container {| corev1.ImagePullSecrets := [] |}
    = (logger.Infoln "I'm using registry" ["https://registry-1.docker.io/"; ""; ""];;
       GetImageBlob w "https://registry-1.docker.io/" "" "" (corev1.Image container)).
Proof.
  assert (HLoad :
    Load w (newK8s namespace) container {| corev1.ImagePullSecrets := [] |}
    = ([], Return
         {| Namespace := namespace; ImagePullSecrets := "";
            RegistryAddress := ""; RegistryName := "";
            RegistryUsername := ""; RegistryPassword := "";
            Image := corev1.Image container |})) by reflexivity.
  split; [exact HLoad|].
  exact (GetEntrypointCmd_after_Load _ _ _ _ _ HLoad eq_refl eq_refl).
Qed.

(** C10: when the first pull-secret reference of the pod has an empty name,
    [Load] reads no Secret: it sets the image and leaves the registry name,
    address, username and password as they were, and [GetEntrypointCmd]
    reads no Secret either and runs exactly as for a pod with no pull
    secret. *)
Theorem empty_pull_secret_name_reads_no_secret (w : World) (k : K8s)
    (namespace : string) (container : corev1.Container)
    (others : list corev1.LocalObjectReference) :
  Load w k container {| corev1.ImagePullSecrets := {| corev1.Name := "" |} :: others |}
  = ([], Return
       {| Namespace := Namespace k; ImagePullSecrets := "";
          RegistryAddress := RegistryAddress k; RegistryName := RegistryName k;
          RegistryUsername := RegistryUsername k;
          RegistryPassword := RegistryPassword k;
          Image := corev1.Image container |})
  ∧ secretsRead
      (trace (GetEntrypointCmd w namespace container
                {| corev1.ImagePullSecrets := {| corev1.Name := "" |} :: others |})) = []
  ∧ GetEntrypointCmd w namespace container
      {| corev1.ImagePullSecrets := {| corev1.Name := "" |} :: others |}
    = GetEntrypointCmd w namespace container {| corev1.ImagePullSecrets := [] |}
  ∧ GetEntrypointCmd w namespace container
      {| corev1.ImagePullSecrets := {| corev1.Name := "" |} :: others |}
    = (logger.Infoln "I'm using registry" ["https://registry-1.docker.io/"; ""; ""];;
       GetImageBlob w "https://registry-1.docker.io/" "" "" (corev1.Image container)).
Proof.
  split; [reflexivity|].
  assert (Heq : GetEntrypointCmd w namespace container
                  {| corev1.ImagePullSecrets := {| corev1.Name := "" |} :: others |}
                = GetEntrypointCmd w namespace container
                    {| corev1.ImagePullSecrets := [] |}) by reflexivity.
  rewrite Heq.
  rewrite (GetEntrypointCmd_after_Load w namespace container
             {| corev1.ImagePullSecrets := [] |} _ eq_refl eq_refl eq_refl).
  split; [|split; reflexivity].
  pose proof (GetImageBlob_reads_no_secret w "https://registry-1.docker.io/"
                "" "" (corev1.Image container)) as Hblob.
  cbn. destruct (GetImageBlob _ _ _ _ _) as [t [r| |]]; exact Hblob.
Qed.

(** *** Failures *)

Lemma fatalMessages_elem (msg : string) :
  In msg fatalMessages → msg ∈ fatalMessages.
Proof. apply list_elem_of_In. Qed.

Lemma fails_fast_Fatal {A : Type} (t : list event) (msg : string)
    (fields : list string + error) :
  In msg fatalMessages →
  fails_fast ((t ++ [ev_Log FatalLevel msg fields], Exit 1) : M A).
Proof.
  intros Hin. split; [reflexivity|].
  exists t, msg, fields. split; [reflexivity | apply fatalMessages_elem, Hin].
Qed.

Lemma fails_fast_bind {A B : Type} (m : M A) (f : A → M B) :
  fails_fast m → (∀ a, fails_fast (f a)) → fails_fast (m ≫= f).
Proof.
  destruct m as [t [a| |]]; intros Hm Hf.
  - specialize (Hf a). unfold fails_fast in *. cbn in *.
    destruct (f a) as [t' [b|code|msg]]; cbn in *.
    + apply Forall_app. split; assumption.
    + destruct Hf as (-> & t0 & msg & fields & -> & Hin).
      split; [reflexivity|]. exists (t ++ t0), msg, fields.
      rewrite app_assoc. split; [reflexivity | exact Hin].
    + exact Hf.
  - exact Hm.
  - exact Hm.
Qed.

Lemma parseDockerConfig_fails_fast (w : World) (k : K8s) (creds : DockerCreds) :
  fails_fast (parseDockerConfig w k creds).
Proof.
  destruct (mapKeys w (Auths creds)) as [|host hosts] eqn:Hkeys.
  - rewrite (parseDockerConfig_no_key _ _ _ Hkeys). reflexivity.
  - rewrite (parseDockerConfig_selected _ _ _ _ _ Hkeys). constructor.
Qed.

Lemma Load_fails_fast (w : World) (k : K8s) (container : corev1.Container)
    (podSpec : corev1.PodSpec) :
  fails_fast (Load w k container podSpec).
Proof.
  destruct (Load_runs w k container podSpec).
  - constructor.
  - constructor.
  - apply (fails_fast_Fatal [_]). cbn. tauto.
  - apply (fails_fast_Fatal [_]). cbn. tauto.
  - apply fails_fast_bind; [repeat constructor|].
    intros _. apply parseDockerConfig_fails_fast.
Qed.

Lemma GetImageBlob_fails_fast (w : World) (url username password image : string) :
  fails_fast (GetImageBlob w url username password image).
Proof.
  destruct (GetImageBlob_runs w url username password image).
  - apply (fails_fast_Fatal []). cbn. tauto.
  - apply (fails_fast_Fatal [_; _]). cbn. tauto.
  - apply (fails_fast_Fatal [_; _; _]). cbn. tauto.
  - apply (fails_fast_Fatal [_; _; _; _]). cbn. tauto.
  - apply (fails_fast_Fatal [_; _; _; _; _]). cbn. tauto.
  - apply (fails_fast_Fatal [_; _; _; _; _]). cbn. tauto.
  - unfold fails_fast, ev_session. cbn.
    destruct (skipVerify w); repeat constructor.
Qed.

Lemma afterLoad_fails_fast (w : World) (k : K8s) :
  fails_fast (afterLoad w k).
Proof.
  unfold afterLoad.
  apply fails_fast_bind.
  { destruct (String.eqb (RegistryName k) ""); repeat constructor. }
  intros _. apply fails_fast_bind; [repeat constructor|].
  intros _. apply GetImageBlob_fails_fast.
Qed.

(** C1, as the code has it: a resolution has no error value to return.
    [Load] and [GetImageBlob] each take one of the listed paths; on each path
    where a step fails (the Secret cannot be read or decoded; the image has
    no tag; the session, the manifest, the blob, its reading or its decoding
    fails) the step's message is logged at Fatal level and the process exits
    with status 1.  So a call of [GetEntrypointCmd] returns, with nothing
    logged at Fatal level, only when no step failed; otherwise the process
    exits with status 1 right after a Fatal message, or (an [auths] map
    without entries) the call panics. *)
Theorem failures_exit_the_process (w : World) (namespace : string)
    (container : corev1.Container) (podSpec : corev1.PodSpec) :
  Load_run w (newK8s namespace) container podSpec
    (Load w (newK8s namespace) container podSpec)
  ∧ (∀ url username password image,
       GetImageBlob_run w url username password image
         (GetImageBlob w url username password image))
  ∧ GetEntrypointCmd w namespace container podSpec
    = Load w (newK8s namespace) container podSpec ≫= afterLoad w
  ∧ fails_fast (GetEntrypointCmd w namespace container podSpec).
Proof.
  split; [apply Load_runs|]. split; [intros; apply GetImageBlob_runs|].
  split; [apply GetEntrypointCmd_Load|].
  rewrite GetEntrypointCmd_Load.
  apply fails_fast_bind; [apply Load_fails_fast | apply afterLoad_fails_fast].
Qed.

(** C1 as the claim states it fails: an image without a tag, on a pod with
    no pull secret, ends the process. *)
Lemma missing_tag_exits_the_process :
  GetEntrypointCmd example.world "default" (example.container "nginx")
    (example.podSpec [])
  = ([ev_Log InfoLevel "I'm using registry"
        (inl ["https://registry-1.docker.io/"; ""; ""]);
      ev_Log FatalLevel "Cannot find tag for image" (inl ["nginx"])],
     Exit 1).
Proof. vm_compute. reflexivity. Qed.

(** *** Trimming the registry name *)

(** C2: [GetEntrypointCmd] trims with [strings.TrimLeft], which takes its
    second argument as a set of characters.  On the spec's example the
    manifest of [app:2.0] is asked for; an image name whose repository
    starts with characters of the host loses them ([redis] becomes [dis]),
    and an image that does not start with the host is changed too. *)
Theorem TrimLeft_trims_a_character_set :
  let requests image :=
    manifestRequests
      (trace (GetEntrypointCmd example.world "default"
                (example.container image) (example.podSpec ["regcred"]))) in
  requests "myregistry.io/app:2.0" = [("app", "2.0")]
  ∧ requests "myregistry.io/redis:1" = [("dis", "1")]
  ∧ requests "other.io/app:2.0" = [("her.io/app", "2.0")]
  ∧ strings.TrimLeft "myregistry.io/redis:1" (fmt.Sprintf_slash "myregistry.io")
    = "dis:1".
Proof. repeat split; vm_compute; reflexivity. Qed.

End orchestrator.

(** ** Further properties *)

Section further.
Import Bytes.

#[local] Arguments String.eqb : simpl never.

(** X1: an image without a colon has no tag: the parser logs
    [Cannot find tag for image] at Fatal level and the process exits with
    status 1; no default tag is put in its place. *)
Theorem ParseContainerImage_without_tag_exits (image : string) :
  elem ":" image = false →
  ParseContainerImage image
  = ([ev_Log FatalLevel "Cannot find tag for image" (inl [image])], Exit 1).
Proof. intros H. exact (ParseContainerImage_no_colon image H). Qed.

(** X1 at [nginx]. *)
Lemma ParseContainerImage_nginx_without_tag :
  elem ":" "nginx" = false
  ∧ ParseContainerImage "nginx"
    = ([ev_Log FatalLevel "Cannot find tag for image" (inl ["nginx"])], Exit 1).
Proof.
  split; [reflexivity|].
  exact (ParseContainerImage_without_tag_exits "nginx" eq_refl).
Defined.

(** X2: of the pull secrets of the pod only the first reference is looked
    at: two pods whose lists start with the same reference (or are both
    empty) are loaded, and resolved, in the same way. *)
Theorem Load_reads_the_first_pull_secret_only (w : World) (k : K8s)
    (namespace : string) (container : corev1.Container)
    (podSpec podSpec' : corev1.PodSpec) :
  head (corev1.ImagePullSecrets podSpec) = head (corev1.ImagePullSecrets podSpec') →
  Load w k container podSpec = Load w k container podSpec'
  ∧ GetEntrypointCmd w namespace container podSpec
    = GetEntrypointCmd w namespace container podSpec'.
Proof.
  destruct podSpec as [refs], podSpec' as [refs']. cbn [corev1.ImagePullSecrets].
  intros Hhead. unfold GetEntrypointCmd, Load. cbn [corev1.ImagePullSecrets].
  destruct refs as [|ref others], refs' as [|ref' others'];
    try discriminate; [split; reflexivity|].
  injection Hhead as <-. split; reflexivity.
Qed.

(** X2 at two pods that name [regcred] first. *)
Lemma Load_regcred_first :
  head (corev1.ImagePullSecrets (example.podSpec ["regcred"; "opaque"]))
  = head (corev1.ImagePullSecrets (example.podSpec ["regcred"]))
  ∧ Load example.world (newK8s "default") (example.container "nginx:1.19")
      (example.podSpec ["regcred"; "opaque"])
    = Load example.world (newK8s "default") (example.container "nginx:1.19")
        (example.podSpec ["regcred"]).
Proof.
  split; [reflexivity|].
  exact (proj1 (Load_reads_the_first_pull_secret_only example.world
                  (newK8s "default") "default" (example.container "nginx:1.19")
                  (example.podSpec ["regcred"; "opaque"])
                  (example.podSpec ["regcred"]) eq_refl)).
Defined.

(** X3: a Secret that can be read but has no [.dockerconfigjson] entry is
    decoded as the empty text, which is no JSON: [Load] logs
    [Cannot unmarshal docker configuration from imagePullSecrets] at Fatal
    level and the process exits. *)
Theorem Load_secret_without_docker_config (w : World) (k : K8s)
    (container : corev1.Container) (podSpec : corev1.PodSpec)
    (ref : corev1.LocalObjectReference)
    (others : list corev1.LocalObjectReference) (data : gmap string string) :
  corev1.ImagePullSecrets podSpec = ref :: others →
  corev1.Name ref ≠ "" →
  secrets w (Namespace k) (corev1.Name ref) = inr data →
  data !! corev1.DockerConfigJsonKey = None →
  Load w k container podSpec
  = ([ev_SecretGet (Namespace k) (corev1.Name ref);
      ev_Log FatalLevel
        "Cannot unmarshal docker configuration from imagePullSecrets"
        (inr SyntaxError)],
     Exit 1).
Proof.
  intros Hrefs Hname Hsecret Hkey. unfold Load. rewrite Hrefs. cbn.
  apply String.eqb_neq in Hname. rewrite Hname. cbn.
  rewrite Hsecret. cbn. rewrite Hkey. reflexivity.
Qed.

(** X3 at the Secret [opaque] of the example world. *)
Lemma Load_opaque_secret :
  (corev1.ImagePullSecrets (example.podSpec ["opaque"])
   = [ {| corev1.Name := "opaque" |} ]
   ∧ "opaque" ≠ ""
   ∧ secrets example.world "default" "opaque" = inr {[ "token" := "c2VjcmV0" ]}
   ∧ ({[ "token" := "c2VjcmV0" ]} : gmap string string)
       !! corev1.DockerConfigJsonKey = None)
  ∧ Load example.world (newK8s "default") (example.container "nginx:1.19")
      (example.podSpec ["opaque"])
    = ([ev_SecretGet "default" "opaque";
        ev_Log FatalLevel
          "Cannot unmarshal docker configuration from imagePullSecrets"
          (inr SyntaxError)],
       Exit 1).
Proof.
  assert (H : corev1.ImagePullSecrets (example.podSpec ["opaque"])
              = [ {| corev1.Name := "opaque" |} ]
            ∧ "opaque" ≠ ""
            ∧ secrets example.world "default" "opaque"
              = inr {[ "token" := "c2VjcmV0" ]}
            ∧ ({[ "token" := "c2VjcmV0" ]} : gmap string string)
                !! corev1.DockerConfigJsonKey = None).
  { repeat split; try (vm_compute; reflexivity). discriminate. }
  split; [exact H|].
  destruct H as (H1 & H2 & H3 & H4).
  exact (Load_secret_without_docker_config example.world (newK8s "default")
           (example.container "nginx:1.19") _ _ _ _ H1 H2 H3 H4).
Defined.

Lemma byte_val (c : ascii) : byte (val c) = c.
Proof.
  unfold byte, val. rewrite N.mod_small by apply N_ascii_bounded.
  apply ascii_N_embedding.
Qed.

Lemma TrimLeftFunc_ascii (cutset : string) (s : string) :
  asciiOnly s = true →
  strings.TrimLeftFunc s (strings.ContainsRune cutset) = dropCutset cutset s.
Proof.
  unfold strings.TrimLeftFunc.
  induction s as [|c s IH]; intros Hs; [reflexivity|].
  cbn [asciiOnly] in Hs. apply andb_prop in Hs as [Hc Hs].
  cbn [scan utf8.DecodeRuneInString dropCutset]. rewrite Hc.
  unfold strings.ContainsRune. rewrite Hc, byte_val.
  destruct (elem c cutset); [|reflexivity].
  cbn [pred]. exact (IH Hs).
Qed.

(** X4: [strings.TrimLeft], as [GetEntrypointCmd] calls it, takes from an
    image name of ASCII characters its longest prefix of characters that
    occur in the cutset, whatever their order. *)
Theorem TrimLeft_drops_cutset_characters (image cutset : string) :
  asciiOnly image = true →
  strings.TrimLeft image cutset = dropCutset cutset image.
Proof.
  intros Hs. unfold strings.TrimLeft.
  destruct (String.eqb_spec image "") as [->|_]; [reflexivity|].
  destruct (String.eqb_spec cutset "") as [->|_].
  - cbn [orb]. clear Hs. induction image as [|c s IH]; reflexivity.
  - cbn [orb]. exact (TrimLeftFunc_ascii cutset image Hs).
Qed.

(** X4 at the image [myregistry.io/redis:1]. *)
Lemma TrimLeft_redis :
  asciiOnly "myregistry.io/redis:1" = true
  ∧ strings.TrimLeft "myregistry.io/redis:1" "myregistry.io/" = "dis:1".
Proof.
  split; [reflexivity|].
  exact (TrimLeft_drops_cutset_characters "myregistry.io/redis:1"
           "myregistry.io/" eq_refl).
Defined.

End further.

(** ** The pull secret and the image name *)

Section pull_secret.
Import Bytes.
#[local] Arguments String.eqb : simpl never.
#[local] Arguments strings.HasPrefix : simpl never.
#[local] Arguments strings.TrimLeft : simpl never.
#[local] Arguments GetImageBlob : simpl never.

(** X5: what [Load] reads and which registry and credentials it settles on
    do not depend on the image of the container: run on another container,
    it does the same and returns the same [K8s] but for the field [Image].
    The hosts under [auths] are never compared with the image. *)
Theorem Load_selects_credentials_without_the_image (w : World) (k : K8s)
    (container container' : corev1.Container) (podSpec : corev1.PodSpec) :
  Load w k container podSpec
  = (k' ← Load w k container' podSpec; mret (set_Image k' (corev1.Image container))).
Proof.
  unfold Load.
  destruct (corev1.ImagePullSecrets podSpec) as [|ref others]; [reflexivity|].
  cbn.
  destruct (String.eqb (corev1.Name ref) ""); [reflexivity|].
  cbn.
  destruct (secrets w (Namespace k) (corev1.Name ref)) as [err|data]; [reflexivity|].
  cbn.
  destruct (decode.Unmarshal store_DockerCreds _ zeroDockerCreds) as [creds [err|]];
    [reflexivity|].
  cbn. unfold parseDockerConfig. cbn.
  destruct (mapKeys w (Auths creds)) as [|host hosts]; reflexivity.
Qed.

Lemma secretsRead_app (t t' : list event) :
  secretsRead (t ++ t') = secretsRead t ++ secretsRead t'.
Proof. apply omap_app. Qed.

Lemma bind_trace {A B : Type} (m : M A) (f : A → M B) :
  trace (m ≫= f)
  = trace m ++ match result m with Return a => trace (f a) | _ => [] end.
Proof.
  destruct m as [t [a| |]]; cbn; [|symmetry; apply app_nil_r..].
  destruct (f a) as [t' o]. reflexivity.
Qed.

Lemma afterLoad_reads_no_secret (w : World) (k : K8s) :
  secretsRead (trace (afterLoad w k)) = [].
Proof.
  unfold afterLoad. rewrite !bind_trace, !secretsRead_app.
  destruct (String.eqb (RegistryName k) ""); cbn;
    apply GetImageBlob_reads_no_secret.
Qed.

(** X6: a resolution reads at most one Secret: the one the first pull-secret
    reference of the pod names, in the namespace it was called with, and
    none when the pod has no reference or the first one has an empty
    name. *)
Theorem GetEntrypointCmd_reads_the_first_pull_secret_only (w : World)
    (namespace : string) (container : corev1.Container) (podSpec : corev1.PodSpec) :
  secretsRead (trace (GetEntrypointCmd w namespace container podSpec))
  = match corev1.ImagePullSecrets podSpec with
    | ref :: _ =>
        if String.eqb (corev1.Name ref) "" then []
        else [(namespace, corev1.Name ref)]
    | [] => []
    end.
Proof.
  rewrite GetEntrypointCmd_Load, bind_trace, secretsRead_app.
  destruct (Load_runs w (newK8s namespace) container podSpec)
    as [Hrefs|ref others Hrefs Hname|ref others err Hrefs Hname Hsecret
       |ref others data creds err Hrefs Hname Hsecret Hjson
       |ref others data creds Hrefs Hname Hsecret Hjson];
    rewrite Hrefs.
  - cbn. apply afterLoad_reads_no_secret.
  - rewrite Hname, String.eqb_refl. cbn. apply afterLoad_reads_no_secret.
  - apply String.eqb_neq in Hname. rewrite Hname. reflexivity.
  - apply String.eqb_neq in Hname. rewrite Hname. reflexivity.
  - apply String.eqb_neq in Hname. rewrite Hname.
    unfold parseDockerConfig.
    destruct (mapKeys w (Auths creds)) as [|host hosts]; [reflexivity|].
    cbn. rewrite afterLoad_reads_no_secret. reflexivity.
Qed.

(** X7: when the first pull secret is named and cannot be read, the
    resolution logs [Cannot read imagePullSecrets] with the error at Fatal
    level and the process exits with status 1: no registry is asked, also
    not the public one without credentials. *)
Theorem unreadable_pull_secret_ends_the_resolution (w : World)
    (namespace : string) (container : corev1.Container) (podSpec : corev1.PodSpec)
    (ref : corev1.LocalObjectReference)
    (others : list corev1.LocalObjectReference) (err : error) :
  corev1.ImagePullSecrets podSpec = ref :: others →
  corev1.Name ref ≠ "" →
  secrets w namespace (corev1.Name ref) = inl err →
  GetEntrypointCmd w namespace container podSpec
  = ([ev_SecretGet namespace (corev1.Name ref);
      ev_Log FatalLevel "Cannot read imagePullSecrets" (inr err)],
     Exit 1).
Proof.
  intros Hrefs Hname Hsecret. rewrite GetEntrypointCmd_Load.
  unfold Load. rewrite Hrefs. cbn.
  apply String.eqb_neq in Hname. rewrite Hname. cbn.
  rewrite Hsecret. reflexivity.
Qed.

(** X7 at a Secret the example world does not have. *)
Lemma unreadable_pull_secret_example :
  (corev1.ImagePullSecrets (example.podSpec ["missing"])
   = [ {| corev1.Name := "missing" |} ]
   ∧ "missing" ≠ ""
   ∧ secrets example.world "default" "missing"
     = inl (errorString "secret not found"))
  ∧ GetEntrypointCmd example.world "default" (example.container "nginx:1.19")
      (example.podSpec ["missing"])
    = ([ev_SecretGet "default" "missing";
        ev_Log FatalLevel "Cannot read imagePullSecrets"
          (inr (errorString "secret not found"))],
       Exit 1).
Proof.
  assert (H : corev1.ImagePullSecrets (example.podSpec ["missing"])
              = [ {| corev1.Name := "missing" |} ]
            ∧ "missing" ≠ ""
            ∧ secrets example.world "default" "missing"
              = inl (errorString "secret not found")).
  { repeat split; try (vm_compute; reflexivity). discriminate. }
  split; [exact H|].
  destruct H as (H1 & H2 & H3).
  exact (unreadable_pull_secret_ends_the_resolution example.world "default"
           (example.container "nginx:1.19") _ _ _ _ H1 H2 H3).
Defined.

(** X8: whenever [Load] returns, [GetEntrypointCmd] writes the registry
    address, the username and the password, as they are, into a log line at
    Info level. *)
Theorem GetEntrypointCmd_logs_the_credentials (w : World) (namespace : string)
    (container : corev1.Container) (podSpec : corev1.PodSpec)
    (t : list event) (k : K8s) :
  Load w (newK8s namespace) container podSpec = (t, Return k) →
  ev_Log InfoLevel "I'm using registry"
    (inl [addressUsed k; RegistryUsername k; RegistryPassword k])
  ∈ trace (GetEntrypointCmd w namespace container podSpec).
Proof.
  intros HLoad. rewrite GetEntrypointCmd_Load, bind_trace, HLoad.
  apply elem_of_app. right. cbn [result snd].
  unfold afterLoad. rewrite !bind_trace.
  apply elem_of_app. right.
  destruct (String.eqb (RegistryName k) ""); cbn; apply list_elem_of_here.
Qed.

(** X8 at the Secret [regcred]: its password [p] is logged. *)
Lemma GetEntrypointCmd_logs_the_password_of_regcred :
  Load example.world (newK8s "default") (example.container "myregistry.io/app:2.0")
    (example.podSpec ["regcred"])
  = ([ev_SecretGet "default" "regcred"],
     Return {| Namespace := "default"; ImagePullSecrets := "regcred";
               RegistryAddress := "https://myregistry.io";
               RegistryName := "myregistry.io";
               RegistryUsername := "u"; RegistryPassword := "p";
               Image := "myregistry.io/app:2.0" |})
  ∧ ev_Log InfoLevel "I'm using registry" (inl ["https://myregistry.io"; "u"; "p"])
    ∈ trace (GetEntrypointCmd example.world "default"
               (example.container "myregistry.io/app:2.0")
               (example.podSpec ["regcred"])).
Proof.
  assert (H : Load example.world (newK8s "default")
                (example.container "myregistry.io/app:2.0")
                (example.podSpec ["regcred"])
              = ([ev_SecretGet "default" "regcred"],
                 Return {| Namespace := "default"; ImagePullSecrets := "regcred";
                           RegistryAddress := "https://myregistry.io";
                           RegistryName := "myregistry.io";
                           RegistryUsername := "u"; RegistryPassword := "p";
                           Image := "myregistry.io/app:2.0" |}))
    by (vm_compute; reflexivity).
  split; [exact H|].
  exact (GetEntrypointCmd_logs_the_credentials example.world "default" _ _ _ _ H).
Defined.

Lemma parseDockerConfig_result (w : World) (k k' : K8s)
    (creds : DockerCreds) (t : list event) :
  parseDockerConfig w k creds = (t, Return k') →
  strings.HasPrefix (RegistryAddress k') "https://" = true
  ∧ (RegistryAddress k' = RegistryName k'
     ∨ RegistryAddress k' = "https://" +:+ RegistryName k')
  ∧ RegistryAddress k' ≠ ""
  ∧ Namespace k' = Namespace k
  ∧ ImagePullSecrets k' = ImagePullSecrets k
  ∧ Image k' = Image k.
Proof.
  intros H.
  destruct (mapKeys w (Auths creds)) as [|host hosts] eqn:Hkeys.
  { rewrite (parseDockerConfig_no_key _ _ _ Hkeys) in H. discriminate. }
  rewrite (parseDockerConfig_selected _ _ _ _ _ Hkeys) in H.
  injection H as _ <-. cbn.
  destruct (strings.HasPrefix host "https://") eqn:Hp.
  - split_and!; try reflexivity; [exact Hp | left; reflexivity|].
    apply HasPrefix_inv in Hp as [r ->]. discriminate.
  - split_and!; try reflexivity;
      [right; reflexivity | discriminate].
Qed.

(** X9: whenever [parseDockerConfig] returns, the registry address starts
    with [https://]: it is the selected host, or the host with [https://] put
    before it, and it is not empty; namespace, pull-secret name and image
    are left as they were. *)
Theorem parseDockerConfig_address_is_https (w : World) (k k' : K8s)
    (creds : DockerCreds) (t : list event) :
  parseDockerConfig w k creds = (t, Return k') →
  strings.HasPrefix (RegistryAddress k') "https://" = true
  ∧ (RegistryAddress k' = RegistryName k'
     ∨ RegistryAddress k' = "https://" +:+ RegistryName k')
  ∧ RegistryAddress k' ≠ ""
  ∧ Namespace k' = Namespace k
  ∧ ImagePullSecrets k' = ImagePullSecrets k
  ∧ Image k' = Image k.
Proof. exact (parseDockerConfig_result w k k' creds t). Qed.

(** X9 at a host written with [http://]: the scheme is not replaced, the
    address is [https://http://plain.example]. *)
Lemma parseDockerConfig_plain_http_key :
  let creds := {| Auths := {[ "http://plain.example" :=
                                {| Username := "u"; Password := "p" |} ]} |} in
  let k' := {| Namespace := "default"; ImagePullSecrets := "";
               RegistryAddress := "https://http://plain.example";
               RegistryName := "http://plain.example";
               RegistryUsername := "u"; RegistryPassword := "p";
               Image := "" |} in
  parseDockerConfig example.world (newK8s "default") creds = ([], Return k')
  ∧ strings.HasPrefix (RegistryAddress k') "https://" = true.
Proof.
  assert (H : parseDockerConfig example.world (newK8s "default")
                {| Auths := {[ "http://plain.example" :=
                                 {| Username := "u"; Password := "p" |} ]} |}
              = ([], Return {| Namespace := "default"; ImagePullSecrets := "";
                               RegistryAddress := "https://http://plain.example";
                               RegistryName := "http://plain.example";
                               RegistryUsername := "u"; RegistryPassword := "p";
                               Image := "" |}))
    by (vm_compute; reflexivity).
  split; [exact H|].
  exact (proj1 (parseDockerConfig_address_is_https _ _ _ _ _ H)).
Defined.

(** *** Trimming *)

Lemma append_assoc (a b c : string) : (a +:+ b) +:+ c = a +:+ (b +:+ c).
Proof. induction a as [|x a IH]; [reflexivity|]. rewrite !app_String, IH. reflexivity. Qed.

Lemma elem_app (c : ascii) (a b : string) :
  elem c (a +:+ b) = elem c a || elem c b.
Proof.
  induction a as [|x a IH]; [reflexivity|].
  rewrite app_String, !elem_String, IH. apply orb_assoc.
Qed.

Lemma dropCutset_inside (cutset p rest : string) :
  (∀ c, elem c p = true → elem c cutset = true) →
  dropCutset cutset (p +:+ rest) = dropCutset cutset rest.
Proof.
  induction p as [|x p IH]; intros Hp; [reflexivity|].
  rewrite app_String. cbn [dropCutset].
  rewrite (Hp x) by (rewrite elem_String, Ascii.eqb_refl; reflexivity).
  apply IH. intros c Hc. apply Hp. rewrite elem_String, Hc. apply orb_true_r.
Qed.

Lemma dropCutset_startsOutside (cutset s : string) :
  startsOutside cutset s = true → dropCutset cutset s = s.
Proof.
  destruct s as [|c s]; [reflexivity|]. cbn [startsOutside dropCutset].
  intros H. apply negb_true_iff in H. rewrite H. reflexivity.
Qed.

Lemma dropCutset_length (cutset s : string) :
  String.length (dropCutset cutset s) ≤ String.length s.
Proof.
  induction s as [|c s IH]; [reflexivity|]. cbn [dropCutset].
  destruct (elem c cutset); cbn [String.length]; lia.
Qed.

Lemma dropCutset_fixed (cutset s : string) :
  dropCutset cutset s = s ↔ startsOutside cutset s = true.
Proof.
  split; [|apply dropCutset_startsOutside].
  destruct s as [|c s]; [reflexivity|]. cbn [startsOutside dropCutset].
  destruct (elem c cutset); [|reflexivity].
  intros H. pose proof (dropCutset_length cutset s) as Hlen.
  rewrite H in Hlen. cbn [String.length] in Hlen. lia.
Qed.

Lemma TrimLeft_ascii (image cutset : string) :
  asciiOnly image = true →
  strings.TrimLeft image cutset = dropCutset cutset image.
Proof.
  intros Hs. unfold strings.TrimLeft.
  destruct (String.eqb_spec image "") as [->|_]; [reflexivity|].
  destruct (String.eqb_spec cutset "") as [->|_].
  - cbn [orb]. clear Hs. induction image as [|c s IH]; reflexivity.
  - cbn [orb]. exact (TrimLeftFunc_ascii cutset image Hs).
Qed.

(** X10: the trimming of [GetEntrypointCmd] leaves an image name of ASCII
    characters unchanged exactly when the name is empty or its first
    character does not occur in [host/]. *)
Theorem TrimLeft_keeps_exactly_the_images_that_start_outside (image host : string) :
  asciiOnly image = true →
  strings.TrimLeft image (fmt.Sprintf_slash host) = image
  ↔ startsOutside (host +:+ "/") image = true.
Proof.
  intros Hs. rewrite (TrimLeft_ascii _ _ Hs). apply dropCutset_fixed.
Qed.

(** X10 at the image [nginx:1.19] and the host [myregistry.io]. *)
Lemma TrimLeft_keeps_nginx :
  asciiOnly "nginx:1.19" = true
  ∧ startsOutside ("myregistry.io" +:+ "/") "nginx:1.19" = true
  ∧ strings.TrimLeft "nginx:1.19" (fmt.Sprintf_slash "myregistry.io") = "nginx:1.19".
Proof.
  split; [reflexivity|]. split; [reflexivity|].
  exact (proj2 (TrimLeft_keeps_exactly_the_images_that_start_outside "nginx:1.19"
                  "myregistry.io" eq_refl) eq_refl).
Defined.

Lemma TrimLeft_removes_the_host (host rest : string) :
  asciiOnly (host +:+ "/" +:+ rest) = true →
  startsOutside (host +:+ "/") rest = true →
  strings.TrimLeft (host +:+ "/" +:+ rest) (host +:+ "/") = rest.
Proof.
  intros Hs Hrest. rewrite (TrimLeft_ascii _ _ Hs).
  rewrite <- append_assoc, dropCutset_inside by done.
  apply dropCutset_startsOutside, Hrest.
Qed.

Lemma Load_with_registry (w : World) (namespace : string)
    (container : corev1.Container) (podSpec : corev1.PodSpec)
    (t : list event) (k : K8s) :
  Load w (newK8s namespace) container podSpec = (t, Return k) →
  RegistryName k ≠ "" →
  Image k = corev1.Image container
  ∧ strings.HasPrefix (RegistryAddress k) "https://" = true
  ∧ RegistryAddress k ≠ "".
Proof.
  intros HLoad Hname.
  pose proof (Load_runs w (newK8s namespace) container podSpec) as Hrun.
  rewrite HLoad in Hrun.
  inversion Hrun as [Hrefs Heq|ref others Hrefs Hn Heq| | |
                     ref others data creds Hrefs Hn Hsecret Hjson Heq].
  - subst k. contradiction Hname. reflexivity.
  - subst k. contradiction Hname. reflexivity.
  - destruct (parseDockerConfig w _ creds) as [t' [k'| |]] eqn:Hparse;
      cbn in Heq; try discriminate.
    injection Heq as _ ->.
    destruct (parseDockerConfig_result _ _ _ _ _ Hparse)
      as (Hp & _ & Hne & _ & _ & Himage).
    split_and!; [exact Himage | exact Hp | exact Hne].
Qed.

(** X11: when [Load] has settled on a registry host and the image is
    [host/rest], in ASCII characters, where [rest] does not start with a
    character of [host/], then [GetEntrypointCmd] logs its two lines and
    calls the registry client for [rest] at the address and with the
    credentials of that host; the address starts with [https://], so the
    public registry is not used. *)
Theorem pull_secret_registry_is_asked_for_the_rest_of_the_image (w : World)
    (namespace : string) (container : corev1.Container) (podSpec : corev1.PodSpec)
    (t : list event) (k : K8s) (rest : string) :
  Load w (newK8s namespace) container podSpec = (t, Return k) →
  RegistryName k ≠ "" →
  corev1.Image container = RegistryName k +:+ "/" +:+ rest →
  asciiOnly (corev1.Image container) = true →
  startsOutside (RegistryName k +:+ "/") rest = true →
  GetEntrypointCmd w namespace container podSpec
  = (let '(t', o) := GetImageBlob w (RegistryAddress k) (RegistryUsername k)
                       (RegistryPassword k) rest in
     (t ++ [ev_Log InfoLevel "Trimmed registry name from image name"
              (inl [RegistryName k; corev1.Image container]);
            ev_Log InfoLevel "I'm using registry"
              (inl [RegistryAddress k; RegistryUsername k; RegistryPassword k])]
        ++ t', o))
  ∧ strings.HasPrefix (RegistryAddress k) "https://" = true.
Proof.
  intros HLoad Hname Himage Hascii Hrest.
  destruct (Load_with_registry _ _ _ _ _ _ HLoad Hname) as (Hk & Hp & Hne).
  split; [|exact Hp].
  rewrite GetEntrypointCmd_Load, HLoad.
  change ((t, Return k) ≫= afterLoad w)
    with (let '(t', o) := afterLoad w k in (t ++ t', o)).
  unfold afterLoad.
  apply String.eqb_neq in Hname, Hne. rewrite Hname, Hne, Hk, Himage.
  rewrite Himage in Hascii.
  rewrite (TrimLeft_removes_the_host _ _ Hascii Hrest).
  cbn. destruct (GetImageBlob _ _ _ _ _) as [t' o]. reflexivity.
Qed.

(** X11 at the spec's example, the image [myregistry.io/app:2.0]. *)
Lemma pull_secret_registry_myregistry :
  let w := example.world in
  let container := example.container "myregistry.io/app:2.0" in
  let podSpec := example.podSpec ["regcred"] in
  let k := {| Namespace := "default"; ImagePullSecrets := "regcred";
              RegistryAddress := "https://myregistry.io";
              RegistryName := "myregistry.io";
              RegistryUsername := "u"; RegistryPassword := "p";
              Image := "myregistry.io/app:2.0" |} in
  (Load w (newK8s "default") container podSpec
   = ([ev_SecretGet "default" "regcred"], Return k)
   ∧ RegistryName k ≠ ""
   ∧ corev1.Image container = RegistryName k +:+ "/" +:+ "app:2.0"
   ∧ asciiOnly (corev1.Image container) = true
   ∧ startsOutside (RegistryName k +:+ "/") "app:2.0" = true)
  ∧ GetEntrypointCmd w "default" container podSpec
    = (let '(t', o) := GetImageBlob w "https://myregistry.io" "u" "p" "app:2.0" in
       ([ev_SecretGet "default" "regcred"]
        ++ [ev_Log InfoLevel "Trimmed registry name from image name"
              (inl ["myregistry.io"; "myregistry.io/app:2.0"]);
            ev_Log InfoLevel "I'm using registry"
              (inl ["https://myregistry.io"; "u"; "p"])]
        ++ t', o)).
Proof.
  assert (H : Load example.world (newK8s "default")
                (example.container "myregistry.io/app:2.0")
                (example.podSpec ["regcred"])
              = ([ev_SecretGet "default" "regcred"],
                 Return {| Namespace := "default"; ImagePullSecrets := "regcred";
                           RegistryAddress := "https://myregistry.io";
                           RegistryName := "myregistry.io";
                           RegistryUsername := "u"; RegistryPassword := "p";
                           Image := "myregistry.io/app:2.0" |}))
    by (vm_compute; reflexivity).
  assert (Hne : "myregistry.io" ≠ "") by discriminate.
  split; [split_and!; [exact H | exact Hne | reflexivity..]|].
  exact (proj1 (pull_secret_registry_is_asked_for_the_rest_of_the_image
                  example.world "default"
                  (example.container "myregistry.io/app:2.0")
                  (example.podSpec ["regcred"]) _ _ "app:2.0"
                  H Hne eq_refl eq_refl eq_refl)).
Defined.

End pull_secret.

Section blob_requests.
Import Bytes.

(** X12: every request of [GetImageBlob] goes through the session it has
    set up, after the registry answered the set-up.  The manifest is asked
    for the two halves of the image name around its first colon, and a blob
    is downloaded only from that repository and with the digest the manifest
    answered. *)
Theorem GetImageBlob_downloads_the_blob_the_manifest_names (w : World)
    (url username password image : string) :
  Forall (λ e,
            match e with
            | ev_DownloadBlob h repository digest =>
                h = session w url username password
                ∧ repository = beforeFirstColon image
                ∧ ping w h = None
                ∧ manifestV2 w h repository (afterFirstColon image) = inr digest
            | ev_ManifestV2 h repository tag =>
                h = session w url username password
                ∧ image = repository +:+ ":" +:+ tag
                ∧ elem ":" repository = false
                ∧ ping w h = None
            | _ => True
            end)
    (trace (GetImageBlob w url username password image)).
Proof.
  destruct (GetImageBlob_runs w url username password image) as
    [Hc|err Hc ?|err h r tg Hc ? ?|d err h r tg Hc ? ? ?|d rd err h r tg Hc ? ? ? ?
    |d rd msg err h r tg Hc ? ? ? ? ?|d rd msg h r tg Hc ? ? ? ? ?];
    try subst h r tg; unfold trace, ev_session; cbn [fst];
    pose proof (first_colon_cut image) as Hcut;
    pose proof (beforeFirstColon_no_colon image) as Hno;
    destruct (skipVerify w) eqn:Hskip; repeat constructor; auto.
Qed.

(** X13: the deferred [reader.Close()] runs exactly when [GetImageBlob]
    returns, once, as its last step after the blob was read.  When the
    process exits instead, also after the blob was downloaded (it cannot be
    read, or it does not decode), the reader is not closed. *)
Theorem GetImageBlob_closes_the_reader_only_on_return (w : World)
    (url username password image : string) :
  let m := GetImageBlob w url username password image in
  match result m with
  | Return _ => ∃ t, trace m = t ++ [ev_Close] ∧ (ev_Close ∉ t) ∧ ev_ReadAll ∈ t
  | _ => ev_Close ∉ trace m
  end.
Proof.
  intros m. subst m.
  destruct (GetImageBlob_runs w url username password image) as
    [Hc|err Hc ?|err h r tg Hc ? ?|d err h r tg Hc ? ? ?|d rd err h r tg Hc ? ? ? ?
    |d rd msg err h r tg Hc ? ? ? ? ?|d rd msg h r tg Hc ? ? ? ? ?];
    try subst h r tg; unfold trace, result, ev_session; cbn [fst snd];
    destruct (skipVerify w).
  all: try (repeat (apply not_elem_of_cons; split; [discriminate|]);
            apply not_elem_of_nil).
  all: eexists [_; _; _; _; _]; split; [reflexivity|]; split;
    [repeat (apply not_elem_of_cons; split; [discriminate|]); apply not_elem_of_nil
    |do 4 apply list_elem_of_further; apply list_elem_of_here].
Qed.

End blob_requests.

(** ** What the blob and the Docker config hold *)

Section member_names.
Import Bytes json decode.

Lemma every_byte (P : ascii → bool) :
  forallb P (List.map ascii_of_nat (List.seq 0 256)) = true → ∀ c, P c = true.
Proof.
  intros H c. rewrite forallb_forall in H. apply H.
  apply in_map_iff. exists (nat_of_ascii c).
  split; [apply ascii_nat_embedding|].
  apply in_seq. pose proof (nat_ascii_bounded c). lia.
Qed.

Lemma letter_fold (a b : ascii) :
  isUpperAZ (upper a) = true →
  (upper a =? upper b)%N = Ascii.eqb (toLower a) (toLower b).
Proof.
  assert (H : ∀ a b, implb (isUpperAZ (upper a))
                       (Bool.eqb (upper a =? upper b)%N
                          (Ascii.eqb (toLower a) (toLower b))) = true).
  { intros a0. apply every_byte. revert a0.
    apply (every_byte
             (λ a0, forallb
                      (λ b0, implb (isUpperAZ (upper a0))
                               (Bool.eqb (upper a0 =? upper b0)%N
                                  (Ascii.eqb (toLower a0) (toLower b0))))
                      (List.map ascii_of_nat (List.seq 0 256)))).
    vm_compute. reflexivity. }
  intros Ha. specialize (H a b). rewrite Ha in H. cbn in H.
  apply Bool.eqb_prop in H. exact H.
Qed.

Lemma simpleLetterEqualFold_sameName (name key : string) :
  anyByte (λ b, negb (isUpperAZ (upper b))) name = false →
  simpleLetterEqualFold name key = sameName name key.
Proof.
  revert key. induction name as [|a name IH]; intros key H.
  - destruct key; reflexivity.
  - cbn [anyByte] in H. apply orb_false_elim in H as [Ha Hname].
    apply negb_false_iff in Ha.
    destruct key as [|b key]; [reflexivity|].
    cbn [simpleLetterEqualFold sameName].
    rewrite (letter_fold a b Ha), (IH key Hname). reflexivity.
Qed.

Lemma sameName_refl (name : string) : sameName name name = true.
Proof.
  induction name as [|a name IH]; [reflexivity|].
  cbn [sameName]. rewrite Ascii.eqb_refl, IH. reflexivity.
Qed.

Lemma sameName_length (name key : string) :
  sameName name key = true → String.length name = String.length key.
Proof.
  revert key. induction name as [|a name IH]; intros [|b key] H;
    try discriminate; [reflexivity|].
  cbn [sameName] in H. apply andb_prop in H as [_ H].
  cbn [String.length]. f_equal. apply IH, H.
Qed.

(** The field of [BlobResponse] a key goes to. *)
Lemma findField_BlobResponse (key : string) :
  findField ["config"] key 0 None
  = if sameName "config" key then Some 0 else None.
Proof.
  cbn [findField]. case_bool_decide as Heq.
  - subst key. reflexivity.
  - change (foldFunc "config") with simpleLetterEqualFold.
    rewrite simpleLetterEqualFold_sameName by reflexivity. reflexivity.
Qed.

(** The field of [Config] a key goes to. *)
Lemma findField_Config (key : string) :
  findField ["Cmd"; "Entrypoint"] key 0 None
  = if sameName "Cmd" key then Some 0
    else if sameName "Entrypoint" key then Some 1 else None.
Proof.
  cbn [findField]. case_bool_decide as Heq.
  { subst key. reflexivity. }
  change (foldFunc "Cmd") with simpleLetterEqualFold.
  change (foldFunc "Entrypoint") with simpleLetterEqualFold.
  rewrite !simpleLetterEqualFold_sameName by reflexivity.
  case_bool_decide as Heq'.
  { subst key. reflexivity. }
  destruct (sameName "Cmd" key); reflexivity.
Qed.

Lemma Cmd_or_Entrypoint (key : string) :
  sameName "Cmd" key = true → sameName "Entrypoint" key = false.
Proof.
  intros H. apply sameName_length in H.
  destruct (sameName "Entrypoint" key) eqn:E; [|reflexivity].
  apply sameName_length in E. rewrite <- H in E. discriminate.
Qed.

End member_names.

Section struct_decoding.
Import Bytes json decode.

(** The errors saved so far stay in front of the ones saved later. *)
Lemma struct_fold_errs {T : Type} (fields : list string)
    (store : nat → value → T → T * list error) (members : list (string * value)) :
  ∀ (v : T) (errs : list error),
    foldl (λ '(v, errs) '(key, item),
             match findField fields key 0 None with
             | None => (v, errs)
             | Some i => let '(v', e) := store i item v in (v', errs ++ e)
             end) (v, errs) members
    = let '(v', e) :=
        foldl (λ '(v, errs) '(key, item),
                 match findField fields key 0 None with
                 | None => (v, errs)
                 | Some i => let '(v', e) := store i item v in (v', errs ++ e)
                 end) (v, []) members in
      (v', errs ++ e).
Proof.
  induction members as [|[key item] members IH]; intros v errs.
  - cbn. rewrite app_nil_r. reflexivity.
  - cbn [foldl]. destruct (findField fields key 0 None) as [i|]; [|apply IH].
    destruct (store i item v) as [v' e].
    rewrite (IH v' (errs ++ e)), (IH v' ([] ++ e)).
    destruct (foldl _ (v', []) members) as [v'' e'].
    rewrite app_nil_l, app_assoc. reflexivity.
Qed.

(** [d.object] into a struct, member by member. *)
Lemma struct_cons {T : Type} (typ : string) (fields : list string)
    (store : nat → value → T → T * list error) (key : string) (item : value)
    (members : list (string * value)) (v : T) :
  struct_ typ fields store (Object ((key, item) :: members)) v
  = match findField fields key 0 None with
    | None => struct_ typ fields store (Object members) v
    | Some i =>
        let '(v', e) := store i item v in
        let '(v'', e') := struct_ typ fields store (Object members) v' in
        (v'', e ++ e')
    end.
Proof.
  unfold struct_. cbn [foldl].
  destruct (findField fields key 0 None) as [i|]; [|reflexivity].
  destruct (store i item v) as [v' e].
  rewrite struct_fold_errs. reflexivity.
Qed.

Lemma struct_nil {T : Type} (typ : string) (fields : list string)
    (store : nat → value → T → T * list error) (v : T) :
  struct_ typ fields store (Object []) v = (v, []).
Proof. reflexivity. Qed.

(** The errors of [d.array] do not depend on the slice. *)
Lemma arrayLoop_errs (items : list value) :
  ∀ (i : nat) (v : slice.t),
    (arrayLoop items i v).2 = []
    ↔ forallb (λ item, match item with Str _ | Null => true | _ => false end)
        items = true.
Proof.
  induction items as [|item items IH]; intros i v; [done|].
  cbn [arrayLoop forallb].
  destruct item; cbn [string_ kind];
    match goal with
    | |- context [arrayLoop items (S i) ?v'] =>
        specialize (IH (S i) v');
        destruct (arrayLoop items (S i) v') as [[n v''] errs']
    end; cbn [snd app andb] in *; try exact IH; done.
Qed.

(** What [strings_] saves as errors does not depend on the slice either. *)
Lemma strings_errs (j : value) (v : slice.t) :
  (strings_ j v).2 = [] ↔ isStrings j = true.
Proof.
  destruct j; try done.
  cbn [strings_ isStrings].
  pose proof (arrayLoop_errs elements 0 v) as H.
  destruct (arrayLoop elements 0 v) as [[n v'] errs]. exact H.
Qed.

Lemma valuesNamed_cons (name key : string) (item : value)
    (members : list (string * value)) :
  valuesNamed name ((key, item) :: members)
  = if sameName name key then item :: valuesNamed name members
    else valuesNamed name members.
Proof. unfold valuesNamed. cbn. destruct (sameName name key); reflexivity. Qed.

(** What the members of an object leave in a [Config]: each field takes the
    values of the members that name it, in their order. *)
Lemma store_Config_fields (members : list (string * value)) :
  ∀ c : Config,
    Cmd (store_Config (Object members) c).1
    = foldl (λ s j, (strings_ j s).1) (Cmd c) (valuesNamed "Cmd" members)
    ∧ Entrypoint (store_Config (Object members) c).1
      = foldl (λ s j, (strings_ j s).1) (Entrypoint c)
          (valuesNamed "Entrypoint" members)
    ∧ ((store_Config (Object members) c).2 = []
       ↔ Forall (λ j, isStrings j = true) (valuesNamed "Cmd" members)
         ∧ Forall (λ j, isStrings j = true) (valuesNamed "Entrypoint" members)).
Proof.
  unfold store_Config.
  induction members as [|[key item] members IH]; intros c.
  { rewrite struct_nil. cbn. split_and!; try done. }
  rewrite struct_cons, findField_Config, !valuesNamed_cons.
  destruct (sameName "Cmd" key) eqn:HC.
  - rewrite (Cmd_or_Entrypoint key HC). cbn [foldl].
    pose proof (strings_errs item (Cmd c)) as He.
    destruct (strings_ item (Cmd c)) as [s e].
    specialize (IH {| Cmd := s; Entrypoint := Entrypoint c |}).
    destruct (struct_ _ _ _ (Object members) _) as [c' e'].
    cbn [fst snd Cmd Entrypoint] in *.
    destruct IH as (IHc & IHe & IHerr).
    split_and!; [exact IHc | exact IHe |].
    rewrite Forall_cons, <- He.
    split; [intros H; apply app_eq_nil in H; tauto|].
    intros ((-> & ?) & ?). rewrite (proj2 IHerr); [reflexivity|]. tauto.
  - destruct (sameName "Entrypoint" key) eqn:HE; [|apply IH].
    cbn [foldl].
    pose proof (strings_errs item (Entrypoint c)) as He.
    destruct (strings_ item (Entrypoint c)) as [s e].
    specialize (IH {| Cmd := Cmd c; Entrypoint := s |}).
    destruct (struct_ _ _ _ (Object members) _) as [c' e'].
    cbn [fst snd Cmd Entrypoint] in *.
    destruct IH as (IHc & IHe & IHerr).
    split_and!; [exact IHc | exact IHe |].
    rewrite Forall_cons, <- He.
    split; [intros H; apply app_eq_nil in H; tauto|].
    intros (? & -> & ?). rewrite (proj2 IHerr); [reflexivity|]. tauto.
Qed.

Lemma stringItems_Str (items : list value) (l : list string) :
  stringItems items = Some l → items = Str <$> l.
Proof.
  revert l. induction items as [|item items IH]; intros l H.
  - injection H as <-. reflexivity.
  - destruct item; try discriminate. cbn [stringItems] in H.
    destruct (stringItems items) as [l'|]; [|discriminate].
    injection H as <-. rewrite (IH l' eq_refl). reflexivity.
Qed.

(** The members that name a field of type [[]string], stored into the nil
    slice. *)
Lemma stringsOf_stored (js : list value) (l : list string) :
  stringsOf js = Some l →
  Forall (λ j, isStrings j = true) js
  ∧ slice.elements (foldl (λ s j, (strings_ j s).1) slice.nil js) = l.
Proof.
  intros H. destruct js as [|j [|??]]; cbn [stringsOf] in H.
  - injection H as <-. split; [constructor | reflexivity].
  - destruct j; try discriminate.
    + injection H as <-. split; [repeat constructor | reflexivity].
    + apply stringItems_Str in H as ->. cbn [foldl].
      destruct (strings_array l) as (v & Hv & Hl).
      split; [|rewrite Hv; exact Hl].
      constructor; [|constructor].
      apply (strings_errs _ slice.nil). rewrite Hv. reflexivity.
  - destruct j; discriminate.
Qed.

Lemma store_BlobResponse_no_config (top : list (string * value)) :
  ∀ b : BlobResponse,
    valuesNamed "config" top = [] →
    store_BlobResponse (Object top) b = (b, []).
Proof.
  unfold store_BlobResponse.
  induction top as [|[key item] top IH]; intros b H; [reflexivity|].
  rewrite struct_cons, findField_BlobResponse.
  rewrite valuesNamed_cons in H.
  destruct (sameName "config" key); [discriminate|]. apply IH, H.
Qed.

Lemma store_BlobResponse_one_config (top : list (string * value)) (j : value) :
  ∀ b : BlobResponse,
    valuesNamed "config" top = [j] →
    store_BlobResponse (Object top) b
    = let '(c, e) := store_Config j (Config_ b) in ({| Config_ := c |}, e).
Proof.
  induction top as [|[key item] top IH]; intros b H; [discriminate|].
  unfold store_BlobResponse. rewrite struct_cons, findField_BlobResponse.
  rewrite valuesNamed_cons in H.
  destruct (sameName "config" key).
  - injection H as -> H.
    destruct (store_Config j (Config_ b)) as [c e].
    fold store_BlobResponse. rewrite (store_BlobResponse_no_config top _ H).
    rewrite app_nil_r. reflexivity.
  - apply IH, H.
Qed.

(** A blob decodes into the arrays [blobArrays] reads off it. *)
Lemma Unmarshal_blobArrays (data : string) (j : value)
    (entrypoint cmd : list string) :
  json.parse data = Some j →
  blobArrays j = Some (entrypoint, cmd) →
  ∃ msg, Unmarshal store_BlobResponse data zeroBlobResponse = (msg, None)
         ∧ slice.elements (Entrypoint (Config_ msg)) = entrypoint
         ∧ slice.elements (Cmd (Config_ msg)) = cmd.
Proof.
  intros Hparse Hj. unfold Unmarshal. rewrite Hparse.
  assert (Hzero : ∃ msg, (zeroBlobResponse, head (@nil error)) = (msg, None)
                         ∧ slice.elements (Entrypoint (Config_ msg)) = []
                         ∧ slice.elements (Cmd (Config_ msg)) = []).
  { eexists. split_and!; reflexivity. }
  destruct j as [| | | | |top]; try discriminate.
  { injection Hj as <- <-. exact Hzero. }
  cbn [blobArrays] in Hj.
  destruct (valuesNamed "config" top) as [|jc [|??]] eqn:Hconfig.
  - injection Hj as <- <-.
    rewrite (store_BlobResponse_no_config top _ Hconfig). exact Hzero.
  - rewrite (store_BlobResponse_one_config top jc _ Hconfig).
    destruct jc as [| | | | |members]; try discriminate.
    { injection Hj as <- <-. exact Hzero. }
    destruct (stringsOf (valuesNamed "Entrypoint" members)) as [ep|] eqn:He;
      [|discriminate].
    destruct (stringsOf (valuesNamed "Cmd" members)) as [cm|] eqn:Hc;
      [|discriminate].
    cbn in Hj. injection Hj as <- <-.
    apply stringsOf_stored in He as [HeT Hep], Hc as [HcT Hcm].
    destruct (store_Config_fields members zeroConfig) as (HC & HE & Herr).
    destruct (store_Config (Object members) (Config_ zeroBlobResponse))
      as [c errs] eqn:Hstore.
    change (Config_ zeroBlobResponse) with zeroConfig in Hstore.
    rewrite Hstore in HC, HE, Herr. cbn [fst snd] in HC, HE, Herr.
    rewrite (proj2 Herr) by (split; assumption).
    eexists. split; [reflexivity|]. cbn [Config_].
    rewrite HC, HE. split; assumption.
  - destruct jc; discriminate.
Qed.

End struct_decoding.

Section blob_contents.
Import Bytes json decode.

(** [GetImageBlob] up to the decoding of the blob, when the registry answers
    every request. *)
Lemma GetImageBlob_reaches_the_blob (w : World)
    (url username password image digest : string) (reader : Reader) :
  let h := session w url username password in
  let t := [ev_Getenv "REGISTRY_SKIP_VERIFY";
            ev_session w url username password;
            ev_ManifestV2 h (beforeFirstColon image) (afterFirstColon image);
            ev_DownloadBlob h (beforeFirstColon image) digest;
            ev_ReadAll] in
  elem ":" image = true →
  ping w h = None →
  manifestV2 w h (beforeFirstColon image) (afterFirstColon image) = inr digest →
  downloadBlob w h (beforeFirstColon image) digest = inr reader →
  readError reader = None →
  GetImageBlob w url username password image
  = match Unmarshal store_BlobResponse (content reader) zeroBlobResponse with
    | (_, Some err) =>
        (t ++ [ev_Log FatalLevel "Cannot unmarshal JSON" (inr err)], Exit 1)
    | (msg, None) =>
        (t ++ [ev_Close], Return (Entrypoint (Config_ msg), Cmd (Config_ msg)))
    end.
Proof.
  intros h t Hcolon Hping Hmanifest Hblob Hread. subst h t.
  destruct (GetImageBlob_runs w url username password image) as
    [Hc|err Hc Hp|err h r tg Hc Hp Hm|d err h r tg Hc Hp Hm Hb
    |d rd err h r tg Hc Hp Hm Hb Hr
    |d rd msg err h r tg Hc Hp Hm Hb Hr Hj|d rd msg h r tg Hc Hp Hm Hb Hr Hj];
    try subst h r tg; try congruence.
  - rewrite Hmanifest in Hm. injection Hm as <-.
    rewrite Hblob in Hb. injection Hb as <-. rewrite Hj. reflexivity.
  - rewrite Hmanifest in Hm. injection Hm as <-.
    rewrite Hblob in Hb. injection Hb as <-. rewrite Hj. reflexivity.
Qed.



(** X15: when the blob has one [config] object and a value of its [Cmd] or
    [Entrypoint] members is neither [null] nor an array of strings and
    [null]s, the decoder reports a type error: [GetImageBlob] logs
    [Cannot unmarshal JSON] at Fatal level and the process exits with
    status 1. *)
Theorem GetImageBlob_rejects_a_field_of_another_type (w : World)
    (url username password image digest : string) (reader : Reader)
    (top members : list (string * value)) :
  let h := session w url username password in
  elem ":" image = true →
  ping w h = None →
  manifestV2 w h (beforeFirstColon image) (afterFirstColon image) = inr digest →
  downloadBlob w h (beforeFirstColon image) digest = inr reader →
  readError reader = None →
  json.parse (content reader) = Some (Object top) →
  valuesNamed "config" top = [Object members] →
  Exists (λ j, isStrings j = false)
    (valuesNamed "Cmd" members ++ valuesNamed "Entrypoint" members) →
  ∃ err : error,
    GetImageBlob w url username password image
    = ([ev_Getenv "REGISTRY_SKIP_VERIFY";
        ev_session w url username password;
        ev_ManifestV2 h (beforeFirstColon image) (afterFirstColon image);
        ev_DownloadBlob h (beforeFirstColon image) digest;
        ev_ReadAll;
        ev_Log FatalLevel "Cannot unmarshal JSON" (inr err)],
       Exit 1).
Proof.
  intros h Hcolon Hping Hmanifest Hblob Hread Hparse Hconfig Hbad.
  rewrite (GetImageBlob_reaches_the_blob w _ _ _ _ _ _
             Hcolon Hping Hmanifest Hblob Hread).
  unfold Unmarshal. rewrite Hparse.
  rewrite (store_BlobResponse_one_config top _ _ Hconfig).
  destruct (store_Config_fields members (Config_ zeroBlobResponse))
    as (_ & _ & Herr).
  destruct (store_Config (Object members) (Config_ zeroBlobResponse))
    as [c [|err errs]].
  - exfalso. destruct (proj1 Herr eq_refl) as [Hc He].
    apply Exists_app in Hbad as [Hbad|Hbad]; apply Exists_exists in Hbad;
      destruct Hbad as (j & Hin & Hj).
    + rewrite Forall_forall in Hc. rewrite (Hc j Hin) in Hj. discriminate.
    + rewrite Forall_forall in He. rewrite (He j Hin) in Hj. discriminate.
  - exists err. reflexivity.
Qed.

(** X15 at [sample.shellFormBlob], whose [Cmd] is a string. *)
Lemma GetImageBlob_shell_form_blob :
  let w := sample.serving sample.shellFormBlob in
  let url := "https://registry-1.docker.io/" in
  let h := session w url "" "" in
  let reader := {| content := sample.shellFormBlob; readError := None |} in
  let members := [("Cmd", Str "nginx -g"); ("Entrypoint", Null)] in
  (elem ":" "nginx:1.19" = true
   ∧ ping w h = None
   ∧ manifestV2 w h (beforeFirstColon "nginx:1.19") (afterFirstColon "nginx:1.19")
     = inr "sha256:0123"
   ∧ downloadBlob w h (beforeFirstColon "nginx:1.19") "sha256:0123" = inr reader
   ∧ readError reader = None
   ∧ json.parse (content reader) = Some (Object [("config", Object members)])
   ∧ valuesNamed "config" [("config", Object members)] = [Object members]
   ∧ Exists (λ j, isStrings j = false)
       (valuesNamed "Cmd" members ++ valuesNamed "Entrypoint" members))
  ∧ ∃ err : error,
      GetImageBlob w url "" "" "nginx:1.19"
      = ([ev_Getenv "REGISTRY_SKIP_VERIFY";
          ev_session w url "" "";
          ev_ManifestV2 h (beforeFirstColon "nginx:1.19")
            (afterFirstColon "nginx:1.19");
          ev_DownloadBlob h (beforeFirstColon "nginx:1.19") "sha256:0123";
          ev_ReadAll;
          ev_Log FatalLevel "Cannot unmarshal JSON" (inr err)],
         Exit 1).
Proof.
  assert (Hbad : Exists (λ j, isStrings j = false)
                   (valuesNamed "Cmd" [("Cmd", Str "nginx -g"); ("Entrypoint", Null)]
                    ++ valuesNamed "Entrypoint"
                         [("Cmd", Str "nginx -g"); ("Entrypoint", Null)])).
  { apply Exists_cons_hd. reflexivity. }
  assert (Hparse : json.parse sample.shellFormBlob
                   = Some (Object [("config",
                                    Object [("Cmd", Str "nginx -g");
                                            ("Entrypoint", Null)])]))
    by (vm_compute; reflexivity).
  split; [split_and!;
            first [exact Hparse | exact Hbad | vm_compute; reflexivity]|].
  exact (GetImageBlob_rejects_a_field_of_another_type
           (sample.serving sample.shellFormBlob) "https://registry-1.docker.io/"
           "" "" "nginx:1.19" "sha256:0123"
           {| content := sample.shellFormBlob; readError := None |} _ _
           eq_refl eq_refl eq_refl eq_refl eq_refl Hparse eq_refl Hbad).
Defined.

(** X16: when the registry answers every request and what it serves as the
    blob is not one JSON value, the empty text included, [GetImageBlob] logs
    [Cannot unmarshal JSON] with a syntax error at Fatal level and the
    process exits with status 1. *)
Theorem GetImageBlob_rejects_a_blob_that_is_no_JSON (w : World)
    (url username password image digest : string) (reader : Reader) :
  let h := session w url username password in
  elem ":" image = true →
  ping w h = None →
  manifestV2 w h (beforeFirstColon image) (afterFirstColon image) = inr digest →
  downloadBlob w h (beforeFirstColon image) digest = inr reader →
  readError reader = None →
  json.parse (content reader) = None →
  GetImageBlob w url username password image
  = ([ev_Getenv "REGISTRY_SKIP_VERIFY";
      ev_session w url username password;
      ev_ManifestV2 h (beforeFirstColon image) (afterFirstColon image);
      ev_DownloadBlob h (beforeFirstColon image) digest;
      ev_ReadAll;
      ev_Log FatalLevel "Cannot unmarshal JSON" (inr SyntaxError)],
     Exit 1).
Proof.
  intros h Hcolon Hping Hmanifest Hblob Hread Hparse.
  rewrite (GetImageBlob_reaches_the_blob w _ _ _ _ _ _
             Hcolon Hping Hmanifest Hblob Hread).
  unfold Unmarshal. rewrite Hparse. reflexivity.
Qed.

(** X16 at the empty blob. *)
Lemma GetImageBlob_empty_blob :
  let w := sample.serving "" in
  let url := "https://registry-1.docker.io/" in
  let h := session w url "" "" in
  let reader := {| content := ""; readError := None |} in
  (elem ":" "nginx:1.19" = true
   ∧ ping w h = None
   ∧ manifestV2 w h (beforeFirstColon "nginx:1.19") (afterFirstColon "nginx:1.19")
     = inr "sha256:0123"
   ∧ downloadBlob w h (beforeFirstColon "nginx:1.19") "sha256:0123" = inr reader
   ∧ readError reader = None
   ∧ json.parse (content reader) = None)
  ∧ GetImageBlob w url "" "" "nginx:1.19"
    = ([ev_Getenv "REGISTRY_SKIP_VERIFY";
        ev_session w url "" "";
        ev_ManifestV2 h (beforeFirstColon "nginx:1.19")
          (afterFirstColon "nginx:1.19");
        ev_DownloadBlob h (beforeFirstColon "nginx:1.19") "sha256:0123";
        ev_ReadAll;
        ev_Log FatalLevel "Cannot unmarshal JSON" (inr SyntaxError)],
       Exit 1).
Proof.
  split; [split_and!; vm_compute; reflexivity|].
  exact (GetImageBlob_rejects_a_blob_that_is_no_JSON
           (sample.serving "") "https://registry-1.docker.io/"
           "" "" "nginx:1.19" "sha256:0123"
           {| content := ""; readError := None |}
           eq_refl eq_refl eq_refl eq_refl eq_refl eq_refl).
Defined.



End blob_contents.

Section docker_config.
Import Bytes json decode.
#[local] Arguments strings.HasPrefix : simpl never.

Lemma map_fold_errs {T : Type} (zero : T) (store : value → T → T * list error)
    (members : list (string * value)) :
  ∀ (v : gmap string T) (errs : list error),
    foldl (λ '(v, errs) '(key, item),
             let '(elem, e) := store item zero in
             (<[key := elem]> v, errs ++ e)) (v, errs) members
    = let '(v', e) :=
        foldl (λ '(v, errs) '(key, item),
                 let '(elem, e) := store item zero in
                 (<[key := elem]> v, errs ++ e)) (v, []) members in
      (v', errs ++ e).
Proof.
  induction members as [|[key item] members IH]; intros v errs.
  - cbn. rewrite app_nil_r. reflexivity.
  - cbn [foldl]. destruct (store item zero) as [el e].
    rewrite (IH _ (errs ++ e)), (IH _ ([] ++ e)).
    destruct (foldl _ (_, []) members) as [v'' e'].
    rewrite app_nil_l, app_assoc. reflexivity.
Qed.

(** [d.object] into a map, member by member. *)
Lemma map_cons {T : Type} (typ : string) (zero : T)
    (store : value → T → T * list error) (key : string) (item : value)
    (members : list (string * value)) (v : gmap string T) :
  map_ typ zero store (Object ((key, item) :: members)) v
  = let '(elem, e) := store item zero in
    let '(v', e') := map_ typ zero store (Object members) (<[key := elem]> v) in
    (v', e ++ e').
Proof.
  unfold map_. cbn [foldl]. destruct (store item zero) as [el e].
  rewrite map_fold_errs. reflexivity.
Qed.

Lemma store_AuthConfig_authJSON (a : AuthConfig) :
  store_AuthConfig (authJSON a) zeroAuthConfig = (a, []).
Proof. destruct a as [u p]. vm_compute. reflexivity. Qed.

Lemma map_authsJSON (entries : list (string * AuthConfig)) :
  ∀ m : gmap string AuthConfig,
    map_ "map[string]types.AuthConfig" zeroAuthConfig store_AuthConfig
      (Object (prod_map id authJSON <$> entries)) m
    = (foldl (λ m '(host, a), <[host := a]> m) m entries, []).
Proof.
  induction entries as [|[host a] entries IH]; intros m; [reflexivity|].
  cbn [fmap list_fmap prod_map fst snd id]. rewrite map_cons.
  rewrite store_AuthConfig_authJSON, IH. reflexivity.
Qed.

Lemma Unmarshal_authsJSON (data : string) (entries : list (string * AuthConfig)) :
  json.parse data = Some (authsJSON entries) →
  Unmarshal store_DockerCreds data zeroDockerCreds
  = ({| Auths := foldl (λ m '(host, a), <[host := a]> m) ∅ entries |}, None).
Proof.
  intros Hparse. unfold Unmarshal. rewrite Hparse.
  unfold authsJSON, store_DockerCreds. rewrite struct_cons.
  change (findField ["auths"] "auths" 0 None) with (Some 0).
  cbn [Auths zeroDockerCreds]. rewrite map_authsJSON, struct_nil. reflexivity.
Qed.

Lemma foldl_insert_lookup (entries : list (string * AuthConfig)) :
  ∀ (m : gmap string AuthConfig) (host : string) (a : AuthConfig),
    foldl (λ m '(host, a), <[host := a]> m) m entries !! host = Some a →
    (host, a) ∈ entries ∨ m !! host = Some a.
Proof.
  induction entries as [|[h b] entries IH]; intros m host a H; [right; exact H|].
  cbn [foldl] in H. apply IH in H as [H|H].
  - left. apply list_elem_of_further, H.
  - destruct (decide (h = host)) as [->|Hne].
    + rewrite lookup_insert_eq in H. injection H as ->.
      left. apply list_elem_of_here.
    + rewrite lookup_insert_ne in H by exact Hne. right. exact H.
Qed.

Lemma foldl_insert_non_empty (entries : list (string * AuthConfig)) :
  ∀ m : gmap string AuthConfig,
    m ≠ ∅ → foldl (λ m '(host, a), <[host := a]> m) m entries ≠ ∅.
Proof.
  induction entries as [|[h b] entries IH]; intros m Hm; [exact Hm|].
  cbn [foldl]. apply IH, insert_non_empty.
Qed.

(** X18: for a pull secret whose Docker config is
    [{auths: {host: {username, password}, ...}}] with at least one entry,
    [Load] reads the Secret and returns with one of the entries: the
    registry name is its host, the address is the host with [https://] in
    front unless it starts with it, and username and password are those of
    that same entry. *)
Theorem Load_takes_one_entry_of_auths (w : World) (k : K8s)
    (container : corev1.Container) (podSpec : corev1.PodSpec)
    (ref : corev1.LocalObjectReference)
    (others : list corev1.LocalObjectReference) (data : gmap string string)
    (entries : list (string * AuthConfig)) :
  MapKeys_lists_keys w →
  corev1.ImagePullSecrets podSpec = ref :: others →
  corev1.Name ref ≠ "" →
  secrets w (Namespace k) (corev1.Name ref) = inr data →
  json.parse (default "" (data !! corev1.DockerConfigJsonKey))
  = Some (authsJSON entries) →
  entries ≠ [] →
  ∃ (host : string) (entry : AuthConfig),
    (host, entry) ∈ entries
    ∧ Load w k container podSpec
      = ([ev_SecretGet (Namespace k) (corev1.Name ref)],
         Return
           {| Namespace := Namespace k;
              ImagePullSecrets := corev1.Name ref;
              RegistryAddress :=
                if strings.HasPrefix host "https://" then host
                else "https://" +:+ host;
              RegistryName := host;
              RegistryUsername := Username entry;
              RegistryPassword := Password entry;
              Image := corev1.Image container |}).
Proof.
  intros Hw Hrefs Hname Hsecret Hparse Hentries.
  pose proof (Unmarshal_authsJSON _ _ Hparse) as Hjson.
  set (m := foldl (λ m '(host, a), <[host := a]> m) ∅ entries) in Hjson.
  assert (m ≠ ∅) as Hm.
  { subst m. destruct entries as [|[h b] entries]; [done|].
    cbn [foldl]. apply foldl_insert_non_empty, insert_non_empty. }
  destruct (mapKeys w m) as [|host hosts] eqn:Hkeys.
  { contradiction Hm. exact (mapKeys_nil_inv _ _ Hw Hkeys). }
  destruct (mapKeys_head_is_key _ _ _ _ Hw Hkeys) as [entry Hentry].
  exists host, entry. split.
  - apply foldl_insert_lookup in Hentry as [H|H]; [exact H|].
    rewrite lookup_empty in H. discriminate.
  - rewrite (Load_reaches_parseDockerConfig _ _ _ _ _ _ _ _
               Hrefs Hname Hsecret Hjson).
    rewrite (parseDockerConfig_selected w _ {| Auths := m |} host hosts Hkeys).
    cbn [Auths]. rewrite Hentry. reflexivity.
Qed.

(** X18 at the Secret [regcred], which has one entry. *)
Lemma Load_takes_the_entry_of_regcred :
  let w := example.world in
  let k := newK8s "default" in
  let podSpec := example.podSpec ["regcred"] in
  let data : gmap string string :=
    {[ corev1.DockerConfigJsonKey := example.pullSecret ]} in
  let entries := [("myregistry.io", {| Username := "u"; Password := "p" |})] in
  (MapKeys_lists_keys w
   ∧ corev1.ImagePullSecrets podSpec = [ {| corev1.Name := "regcred" |} ]
   ∧ "regcred" ≠ ""
   ∧ secrets w "default" "regcred" = inr data
   ∧ json.parse (default "" (data !! corev1.DockerConfigJsonKey))
     = Some (authsJSON entries)
   ∧ entries ≠ [])
  ∧ ∃ (host : string) (entry : AuthConfig),
      (host, entry) ∈ entries
      ∧ Load w k (example.container "myregistry.io/app:2.0") podSpec
        = ([ev_SecretGet "default" "regcred"],
           Return
             {| Namespace := "default";
                ImagePullSecrets := "regcred";
                RegistryAddress :=
                  if strings.HasPrefix host "https://" then host
                  else "https://" +:+ host;
                RegistryName := host;
                RegistryUsername := Username entry;
                RegistryPassword := Password entry;
                Image := "myregistry.io/app:2.0" |}).
Proof.
  assert (Hw : MapKeys_lists_keys example.world) by (intros m; reflexivity).
  assert (H : corev1.ImagePullSecrets (example.podSpec ["regcred"])
              = [ {| corev1.Name := "regcred" |} ]
            ∧ "regcred" ≠ ""
            ∧ secrets example.world "default" "regcred"
              = inr {[ corev1.DockerConfigJsonKey := example.pullSecret ]}
            ∧ json.parse
                (default ""
                   (({[ corev1.DockerConfigJsonKey := example.pullSecret ]}
                     : gmap string string) !! corev1.DockerConfigJsonKey))
              = Some (authsJSON
                        [("myregistry.io", {| Username := "u"; Password := "p" |})])
            ∧ [("myregistry.io", {| Username := "u"; Password := "p" |})] ≠ []).
  { split_and!; try (vm_compute; reflexivity); discriminate. }
  split; [split; [exact Hw | exact H]|].
  destruct H as (H1 & H2 & H3 & H4 & H5).
  exact (Load_takes_one_entry_of_auths example.world (newK8s "default")
           (example.container "myregistry.io/app:2.0") _ _ _ _ _
           Hw H1 H2 H3 H4 H5).
Defined.

End docker_config.

Section panics.
Import Bytes.
#[local] Arguments String.eqb : simpl never.
#[local] Arguments GetImageBlob : simpl never.
#[local] Arguments parseDockerConfig : simpl never.

Lemma bind_result {A B : Type} (m : M A) (f : A → M B) :
  result (m ≫= f)
  = match result m with
    | Return a => result (f a)
    | Exit code => Exit code
    | Panic msg => Panic msg
    end.
Proof.
  destruct m as [t [a| |]]; cbn; try reflexivity.
  destruct (f a) as [t' o]. reflexivity.
Qed.

(** The two index expressions of [ParseContainerImage] are guarded by the
    test on the length: [GetImageBlob] does not panic. *)
Lemma GetImageBlob_no_panic (w : World) (url username password image msg : string) :
  result (GetImageBlob w url username password image) ≠ Panic msg.
Proof.
  destruct (GetImageBlob_runs w url username password image); discriminate.
Qed.

Lemma afterLoad_no_panic (w : World) (k : K8s) (msg : string) :
  result (afterLoad w k) ≠ Panic msg.
Proof.
  unfold afterLoad. rewrite !bind_result.
  destruct (String.eqb (RegistryName k) ""); cbn; apply GetImageBlob_no_panic.
Qed.

(** X19: with the registry and the Kubernetes client answering by a value
    or an error, a resolution panics in one case only: the first pull secret
    is named, can be read and decodes, and its [auths] has no entry
    ([MapKeys()[0]] is out of range).  The index expressions of
    [ParseContainerImage] and of [Load] are guarded by the tests on the
    length before them. *)
Theorem GetEntrypointCmd_panics_exactly_without_an_auths_entry (w : World)
    (namespace : string) (container : corev1.Container) (podSpec : corev1.PodSpec) :
  MapKeys_lists_keys w →
  (∃ msg, result (GetEntrypointCmd w namespace container podSpec) = Panic msg)
  ↔ ∃ ref others data creds,
      corev1.ImagePullSecrets podSpec = ref :: others
      ∧ corev1.Name ref ≠ ""
      ∧ secrets w namespace (corev1.Name ref) = inr data
      ∧ decode.Unmarshal store_DockerCreds
          (default "" (data !! corev1.DockerConfigJsonKey)) zeroDockerCreds
        = (creds, None)
      ∧ Auths creds = ∅.
Proof.
  intros Hw. rewrite GetEntrypointCmd_Load, bind_result. split.
  - intros [msg Hpanic].
    destruct (Load_runs w (newK8s namespace) container podSpec)
      as [Hrefs|ref others Hrefs Hname|ref others err Hrefs Hname Hsecret
         |ref others data creds err Hrefs Hname Hsecret Hjson
         |ref others data creds Hrefs Hname Hsecret Hjson];
      cbn [result snd] in Hpanic;
      try (contradiction (afterLoad_no_panic _ _ _ Hpanic)); try discriminate.
    exists ref, others, data, creds. split_and!; try assumption.
    destruct (mapKeys w (Auths creds)) as [|host hosts] eqn:Hkeys.
    { exact (mapKeys_nil_inv _ _ Hw Hkeys). }
    exfalso. rewrite bind_result in Hpanic. cbn in Hpanic.
    rewrite (parseDockerConfig_selected _ _ _ _ _ Hkeys) in Hpanic.
    cbn in Hpanic. contradiction (afterLoad_no_panic _ _ _ Hpanic).
  - intros (ref & others & data & creds & Hrefs & Hname & Hsecret & Hjson & Hempty).
    rewrite (Load_reaches_parseDockerConfig w (newK8s namespace) _ _ _ _ _ _
               Hrefs Hname Hsecret Hjson).
    rewrite (parseDockerConfig_no_key w _ creds)
      by (rewrite Hempty; apply mapKeys_empty, Hw).
    eexists. reflexivity.
Qed.

(** X19 at the Secret [noauths], whose Docker config is [{"auths":{}}]. *)
Lemma GetEntrypointCmd_panics_on_noauths :
  MapKeys_lists_keys example.world
  ∧ ∃ msg, result (GetEntrypointCmd example.world "default"
                     (example.container "nginx:1.19")
                     (example.podSpec ["noauths"]))
           = Panic msg.
Proof.
  assert (Hw : MapKeys_lists_keys example.world) by (intros m; reflexivity).
  split; [exact Hw|].
  apply (proj2 (GetEntrypointCmd_panics_exactly_without_an_auths_entry
                  example.world "default" (example.container "nginx:1.19")
                  (example.podSpec ["noauths"]) Hw)).
  exists {| corev1.Name := "noauths" |}, [],
    {[ corev1.DockerConfigJsonKey := example.emptyAuths ]}, {| Auths := ∅ |}.
  split_and!; try (vm_compute; reflexivity). discriminate.
Defined.

End panics.

(** ** Reading back a written text *)

Section texts.
Import Bytes json.

Lemma snoc_app (raw : string) (c : ascii) (s : string) :
  snoc raw c +:+ s = raw +:+ String c s.
Proof.
  unfold snoc. induction raw as [|x raw IH]; [reflexivity|].
  rewrite !app_String, IH. reflexivity.
Qed.

Lemma app_empty_r (s : string) : s +:+ "" = s.
Proof. induction s as [|x s IH]; [reflexivity|]. rewrite app_String, IH. reflexivity. Qed.

Lemma plainByte_inv (c : ascii) :
  plainByte c = true →
  c ≠ quote ∧ c ≠ backslash ∧ (val c <? 0x20)%N = false
  ∧ (val c <? utf8.RuneSelf)%N = true.
Proof.
  unfold plainByte. intros H.
  apply andb_prop in H as [H Hb]. apply andb_prop in H as [H Hq].
  apply andb_prop in H as [Hlo Hhi].
  apply negb_true_iff, Ascii.eqb_neq in Hb, Hq.
  apply N.leb_le in Hlo.
  split_and!; [exact Hq | exact Hb | apply N.ltb_ge, Hlo | exact Hhi].
Qed.

(** The scanner inside a string literal of plain bytes. *)
Lemma lex_in_string (s : string) :
  ∀ (raw rest : string),
    plain s = true →
    lex (lexString stateInString raw) (s +:+ String quote rest)
    = (TString (raw +:+ s) ::.) <$> lex lexValue rest.
Proof.
  induction s as [|c s IH]; intros raw rest Hs.
  - rewrite app_empty, app_empty_r. cbn [lex strStep].
    rewrite bool_decide_eq_true_2 by reflexivity. reflexivity.
  - cbn [plain] in Hs. apply andb_prop in Hs as [Hc Hs].
    destruct (plainByte_inv c Hc) as (Hq & Hb & Hlo & _).
    rewrite app_String. cbn [lex strStep].
    rewrite (bool_decide_eq_false_2 _ Hq), (bool_decide_eq_false_2 _ Hb), Hlo.
    rewrite (IH _ _ Hs), snoc_app. reflexivity.
Qed.

Lemma lex_quoted (s rest : string) :
  plain s = true →
  lex lexValue (quoted s +:+ rest) = (TString s ::.) <$> lex lexValue rest.
Proof.
  intros Hs. unfold quoted. rewrite app_String.
  change (lex lexValue (String quote ((s +:+ String quote "") +:+ rest)))
    with (([] ++.) <$>
            lex (lexString stateInString "") ((s +:+ String quote "") +:+ rest)).
  rewrite append_assoc, app_String, app_empty.
  rewrite (lex_in_string s "" rest Hs).
  destruct (lex lexValue rest); reflexivity.
Qed.

Lemma lex_start (c : ascii) (st : lexState) (ts : list token) (rest : string) :
  lexStart c = Some (st, ts) →
  lex lexValue (String c rest) = (ts ++.) <$> lex st rest.
Proof. intros H. cbn [lex]. rewrite H. reflexivity. Qed.

(** The scanner over the rest of an array of strings. *)
Lemma lex_moreItems (items : list string) (rest : string) :
  Forall (λ s, plain s = true) items →
  lex lexValue (moreItems items +:+ rest)
  = (moreTokens items ++.) <$> lex lexValue rest.
Proof.
  induction 1 as [|item items Hitem _ IH]; cbn [moreItems moreTokens].
  - change ("]" +:+ rest) with (String "]" rest).
    rewrite (lex_start "]" lexValue [RBracket]) by reflexivity. reflexivity.
  - rewrite !append_assoc.
    change ("," +:+ (quoted item +:+ (moreItems items +:+ rest)))
      with (String "," (quoted item +:+ (moreItems items +:+ rest))).
    rewrite (lex_start "," lexValue [Comma]) by reflexivity.
    rewrite (lex_quoted _ _ Hitem), IH.
    destruct (lex lexValue rest); reflexivity.
Qed.

Lemma lex_arrayText (items : list string) (rest : string) :
  Forall (λ s, plain s = true) items →
  lex lexValue (arrayText items +:+ rest)
  = (arrayTokens items ++.) <$> lex lexValue rest.
Proof.
  intros Hitems. destruct Hitems as [|item items Hitem Hitems];
    cbn [arrayText arrayTokens].
  - change ("[]" +:+ rest) with (String "[" (String "]" rest)).
    rewrite (lex_start "[" lexValue [LBracket]) by reflexivity.
    rewrite (lex_start "]" lexValue [RBracket]) by reflexivity.
    destruct (lex lexValue rest); reflexivity.
  - rewrite !append_assoc.
    change ("[" +:+ (quoted item +:+ (moreItems items +:+ rest)))
      with (String "[" (quoted item +:+ (moreItems items +:+ rest))).
    rewrite (lex_start "[" lexValue [LBracket]) by reflexivity.
    rewrite (lex_quoted _ _ Hitem), (lex_moreItems _ _ Hitems).
    destruct (lex lexValue rest); reflexivity.
Qed.

(** [unquoteBytes] leaves a literal of plain bytes as it is. *)
Lemma unquote_plain_from (s : string) :
  ∀ out : string,
    plain s = true → scan unquoteStep 0 out s = (out +:+ s, "").
Proof.
  induction s as [|c s IH]; intros out Hs.
  - rewrite app_empty_r. reflexivity.
  - cbn [plain] in Hs. apply andb_prop in Hs as [Hc Hs].
    destruct (plainByte_inv c Hc) as (_ & Hb & _ & Hself).
    cbn [scan unquoteStep].
    rewrite (bool_decide_eq_false_2 _ Hb), Hself. cbn [pred].
    rewrite (IH _ Hs), snoc_app. reflexivity.
Qed.

Lemma unquote_plain (s : string) : plain s = true → unquote s = s.
Proof. intros Hs. unfold unquote. rewrite (unquote_plain_from s "" Hs). reflexivity. Qed.

(** The parser over the rest of an array of strings, [items] being the
    elements read so far, in reverse. *)
Lemma parseTokens_moreTokens (l : list string) :
  ∀ (items : list value) (stack : list frame) (rest : list token),
    Forall (λ s, plain s = true) l →
    parseTokens endValue (inArray items :: stack) (moreTokens l ++ rest)
    = match close (Array (reverse items ++ (Str <$> l))) stack with
      | Some (st, stack') => parseTokens st stack' rest
      | None => None
      end.
Proof.
  induction l as [|x l IH]; intros items stack rest Hl.
  - cbn. rewrite app_nil_r. reflexivity.
  - apply Forall_cons in Hl as [Hx Hl].
    cbn [moreTokens app parseTokens parseStep close].
    rewrite (unquote_plain x Hx), (IH _ _ _ Hl).
    rewrite reverse_cons, <- app_assoc. reflexivity.
Qed.

Lemma parseTokens_arrayTokens (l : list string) (orEmpty : bool)
    (stack : list frame) (rest : list token) :
  Forall (λ s, plain s = true) l →
  parseTokens (beginValue orEmpty) stack (arrayTokens l ++ rest)
  = match close (Array (Str <$> l)) stack with
    | Some (st, stack') => parseTokens st stack' rest
    | None => None
    end.
Proof.
  intros Hl. destruct Hl as [|x l Hx Hl]; destruct orEmpty.
  1, 2: reflexivity.
  all: cbn [arrayTokens app parseTokens parseStep close];
    rewrite (unquote_plain x Hx), (parseTokens_moreTokens _ _ _ _ Hl);
    reflexivity.
Qed.

(** The text [blobText cmd entrypoint] is the JSON value of a blob with
    these two arrays. *)
Lemma parse_blobText (cmd entrypoint : list string) :
  Forall (λ s, plain s = true) cmd →
  Forall (λ s, plain s = true) entrypoint →
  parse (blobText cmd entrypoint)
  = Some (blobJSON [("Cmd", Array (Str <$> cmd));
                    ("Entrypoint", Array (Str <$> entrypoint))]).
Proof.
  intros Hcmd Hep. unfold parse, blobText.
  change ("{" +:+ quoted "config" +:+ ":{" +:+ quoted "Cmd" +:+ ":"
            +:+ arrayText cmd +:+ "," +:+ quoted "Entrypoint" +:+ ":"
            +:+ arrayText entrypoint +:+ "}}")
    with (String "{"
            (quoted "config" +:+
               String ":" (String "{"
                 (quoted "Cmd" +:+
                    String ":"
                      (arrayText cmd +:+
                         String ","
                           (quoted "Entrypoint" +:+
                              String ":" (arrayText entrypoint +:+ "}}"))))))).
  rewrite (lex_start "{" lexValue [LBrace]) by reflexivity.
  rewrite lex_quoted by reflexivity.
  rewrite (lex_start ":" lexValue [Colon]) by reflexivity.
  rewrite (lex_start "{" lexValue [LBrace]) by reflexivity.
  rewrite lex_quoted by reflexivity.
  rewrite (lex_start ":" lexValue [Colon]) by reflexivity.
  rewrite (lex_arrayText _ _ Hcmd).
  rewrite (lex_start "," lexValue [Comma]) by reflexivity.
  rewrite lex_quoted by reflexivity.
  rewrite (lex_start ":" lexValue [Colon]) by reflexivity.
  rewrite (lex_arrayText _ _ Hep).
  change (lex lexValue "}}") with (Some [RBrace; RBrace]).
  cbn [fmap option_fmap option_map app].
  cbn [parseTokens parseStep close].
  rewrite (unquote_plain "config") by reflexivity.
  rewrite (unquote_plain "Cmd") by reflexivity.
  rewrite (parseTokens_arrayTokens _ _ _ _ Hcmd).
  cbn [parseTokens parseStep close].
  rewrite (unquote_plain "Entrypoint") by reflexivity.
  rewrite (parseTokens_arrayTokens _ _ _ _ Hep).
  reflexivity.
Qed.

Lemma parse_dockerConfigText (host : string) (a : AuthConfig) :
  plain host = true → plain (Username a) = true → plain (Password a) = true →
  parse (dockerConfigText host a) = Some (authsJSON [(host, a)]).
Proof.
  intros Hhost Hu Hp. unfold parse, dockerConfigText.
  change ("{" +:+ quoted "auths" +:+ ":{" +:+ quoted host +:+ ":{"
            +:+ quoted "username" +:+ ":" +:+ quoted (Username a) +:+ ","
            +:+ quoted "password" +:+ ":" +:+ quoted (Password a) +:+ "}}}")
    with (String "{"
            (quoted "auths" +:+
               String ":" (String "{"
                 (quoted host +:+
                    String ":" (String "{"
                      (quoted "username" +:+
                         String ":"
                           (quoted (Username a) +:+
                              String ","
                                (quoted "password" +:+
                                   String ":"
                                     (quoted (Password a) +:+ "}}}"))))))))).
  rewrite (lex_start "{" lexValue [LBrace]) by reflexivity.
  rewrite lex_quoted by reflexivity.
  rewrite (lex_start ":" lexValue [Colon]) by reflexivity.
  rewrite (lex_start "{" lexValue [LBrace]) by reflexivity.
  rewrite (lex_quoted _ _ Hhost).
  rewrite (lex_start ":" lexValue [Colon]) by reflexivity.
  rewrite (lex_start "{" lexValue [LBrace]) by reflexivity.
  rewrite lex_quoted by reflexivity.
  rewrite (lex_start ":" lexValue [Colon]) by reflexivity.
  rewrite (lex_quoted _ _ Hu).
  rewrite (lex_start "," lexValue [Comma]) by reflexivity.
  rewrite lex_quoted by reflexivity.
  rewrite (lex_start ":" lexValue [Colon]) by reflexivity.
  rewrite (lex_quoted _ _ Hp).
  change (lex lexValue "}}}") with (Some [RBrace; RBrace; RBrace]).
  cbn [fmap option_fmap option_map app].
  cbn [parseTokens parseStep close].
  rewrite (unquote_plain "auths") by reflexivity.
  rewrite (unquote_plain "username") by reflexivity.
  rewrite (unquote_plain "password") by reflexivity.
  rewrite (unquote_plain _ Hhost), (unquote_plain _ Hu), (unquote_plain _ Hp).
  reflexivity.
Qed.

Lemma stringItems_fmap_Str (l : list string) : stringItems (Str <$> l) = Some l.
Proof.
  induction l as [|x l IH]; [reflexivity|].
  change (stringItems (Str <$> x :: l))
    with ((x ::.) <$> stringItems (Str <$> l)).
  rewrite IH. reflexivity.
Qed.

Lemma blobArrays_blobText (cmd entrypoint : list string) :
  blobArrays (blobJSON [("Cmd", Array (Str <$> cmd));
                        ("Entrypoint", Array (Str <$> entrypoint))])
  = Some (entrypoint, cmd).
Proof.
  assert (Hconfig : ∀ members,
            valuesNamed "config" [("config", Object members)] = [Object members])
    by reflexivity.
  assert (He : ∀ c e, valuesNamed "Entrypoint" [("Cmd", c); ("Entrypoint", e)] = [e])
    by reflexivity.
  assert (Hc : ∀ c e, valuesNamed "Cmd" [("Cmd", c); ("Entrypoint", e)] = [c])
    by reflexivity.
  unfold blobJSON, blobArrays. rewrite Hconfig, He, Hc.
  cbn [stringsOf]. rewrite !stringItems_fmap_Str. reflexivity.
Qed.

Lemma forallb_plain (l : list string) :
  forallb plain l = true → Forall (λ s, plain s = true) l.
Proof.
  induction l as [|x l IH]; intros H; [constructor|].
  cbn [forallb] in H. apply andb_prop in H as [Hx Hl].
  constructor; [exact Hx | exact (IH Hl)].
Qed.

(** X20: a blob written as [{"config":{"Cmd":[...],"Entrypoint":[...]}}],
    its strings in plain bytes, is read back: when the registry answers
    every request with it, [GetImageBlob] returns the strings of
    [Entrypoint] and the strings of [Cmd], each in its order. *)
Theorem GetImageBlob_reads_back_a_written_blob (w : World)
    (url username password image digest : string) (reader : Reader)
    (cmd entrypoint : list string) :
  let h := session w url username password in
  elem ":" image = true →
  ping w h = None →
  manifestV2 w h (beforeFirstColon image) (afterFirstColon image) = inr digest →
  downloadBlob w h (beforeFirstColon image) digest = inr reader →
  readError reader = None →
  content reader = blobText cmd entrypoint →
  forallb plain cmd = true →
  forallb plain entrypoint = true →
  ∃ e c : slice.t,
    GetImageBlob w url username password image
    = ([ev_Getenv "REGISTRY_SKIP_VERIFY";
        ev_session w url username password;
        ev_ManifestV2 h (beforeFirstColon image) (afterFirstColon image);
        ev_DownloadBlob h (beforeFirstColon image) digest;
        ev_ReadAll;
        ev_Close],
       Return (e, c))
    ∧ slice.elements e = entrypoint
    ∧ slice.elements c = cmd.
Proof.
  intros h Hcolon Hping Hmanifest Hblob Hread Hcontent Hcmd Hep.
  rewrite (GetImageBlob_reaches_the_blob w _ _ _ _ _ _
             Hcolon Hping Hmanifest Hblob Hread).
  pose proof (parse_blobText cmd entrypoint (forallb_plain _ Hcmd)
                (forallb_plain _ Hep)) as Hparse.
  rewrite <- Hcontent in Hparse.
  destruct (Unmarshal_blobArrays _ _ _ _ Hparse (blobArrays_blobText _ _))
    as (msg & -> & He & Hc).
  eexists _, _. split; [reflexivity|]. split; assumption.
Qed.

(** X20 at the blob of the example world. *)
Lemma GetImageBlob_reads_back_configBlob :
  let w := example.world in
  let url := "https://registry-1.docker.io/" in
  let h := session w url "" "" in
  let reader := {| content := example.configBlob; readError := None |} in
  (elem ":" "nginx:1.19" = true
   ∧ ping w h = None
   ∧ manifestV2 w h (beforeFirstColon "nginx:1.19") (afterFirstColon "nginx:1.19")
     = inr "sha256:0123"
   ∧ downloadBlob w h (beforeFirstColon "nginx:1.19") "sha256:0123" = inr reader
   ∧ readError reader = None
   ∧ content reader = blobText ["nginx"; "-g"; "daemon off;"] []
   ∧ forallb plain ["nginx"; "-g"; "daemon off;"] = true
   ∧ forallb plain [] = true)
  ∧ ∃ e c : slice.t,
      GetImageBlob w url "" "" "nginx:1.19"
      = ([ev_Getenv "REGISTRY_SKIP_VERIFY";
          ev_session w url "" "";
          ev_ManifestV2 h (beforeFirstColon "nginx:1.19")
            (afterFirstColon "nginx:1.19");
          ev_DownloadBlob h (beforeFirstColon "nginx:1.19") "sha256:0123";
          ev_ReadAll;
          ev_Close],
         Return (e, c))
      ∧ slice.elements e = []
      ∧ slice.elements c = ["nginx"; "-g"; "daemon off;"].
Proof.
  split; [split_and!; vm_compute; reflexivity|].
  exact (GetImageBlob_reads_back_a_written_blob
           example.world "https://registry-1.docker.io/" "" "" "nginx:1.19"
           "sha256:0123" {| content := example.configBlob; readError := None |}
           ["nginx"; "-g"; "daemon off;"] []
           eq_refl eq_refl eq_refl eq_refl eq_refl eq_refl eq_refl eq_refl).
Defined.

Lemma mapKeys_singleton (w : World) (host : string) (a : AuthConfig) :
  MapKeys_lists_keys w → mapKeys w {[ host := a ]} = [host].
Proof.
  intros Hw. specialize (Hw {[ host := a ]}).
  rewrite map_to_list_singleton in Hw. cbn in Hw.
  apply Permutation_singleton_r in Hw. exact Hw.
Qed.

(** X21: a Docker config written as
    [{"auths":{"<host>":{"username":"<u>","password":"<p>"}}}], the three
    texts in plain bytes, is read back: [Load] reads the Secret and returns
    with that host as registry name, the host with [https://] in front (or
    the host itself when it starts with it) as address, and [u] and [p] as
    username and password. *)
Theorem Load_reads_back_a_written_docker_config (w : World) (k : K8s)
    (container : corev1.Container) (podSpec : corev1.PodSpec)
    (ref : corev1.LocalObjectReference)
    (others : list corev1.LocalObjectReference) (data : gmap string string)
    (host : string) (a : AuthConfig) :
  MapKeys_lists_keys w →
  corev1.ImagePullSecrets podSpec = ref :: others →
  corev1.Name ref ≠ "" →
  secrets w (Namespace k) (corev1.Name ref) = inr data →
  data !! corev1.DockerConfigJsonKey = Some (dockerConfigText host a) →
  plain host = true → plain (Username a) = true → plain (Password a) = true →
  Load w k container podSpec
  = ([ev_SecretGet (Namespace k) (corev1.Name ref)],
     Return
       {| Namespace := Namespace k;
          ImagePullSecrets := corev1.Name ref;
          RegistryAddress :=
            if strings.HasPrefix host "https://" then host
            else "https://" +:+ host;
          RegistryName := host;
          RegistryUsername := Username a;
          RegistryPassword := Password a;
          Image := corev1.Image container |}).
Proof.
  intros Hw Hrefs Hname Hsecret Hdata Hhost Hu Hp.
  pose proof (Unmarshal_authsJSON _ _ (parse_dockerConfigText host a Hhost Hu Hp))
    as Hjson.
  cbn [foldl] in Hjson. rewrite insert_empty in Hjson.
  assert (Hjson' : decode.Unmarshal store_DockerCreds
                     (default "" (data !! corev1.DockerConfigJsonKey))
                     zeroDockerCreds
                   = ({| Auths := {[ host := a ]} |}, None)).
  { rewrite Hdata. exact Hjson. }
  rewrite (Load_reaches_parseDockerConfig _ _ _ _ _ _ _ _
             Hrefs Hname Hsecret Hjson').
  rewrite (parseDockerConfig_selected w _ {| Auths := {[ host := a ]} |} host []
             (mapKeys_singleton w host a Hw)).
  cbn [Auths]. rewrite lookup_singleton_eq. reflexivity.
Qed.

(** X21 at the Secret [regcred]. *)
Lemma Load_reads_back_pullSecret :
  let w := example.world in
  let k := newK8s "default" in
  let podSpec := example.podSpec ["regcred"] in
  let data : gmap string string :=
    {[ corev1.DockerConfigJsonKey := example.pullSecret ]} in
  let a := {| Username := "u"; Password := "p" |} in
  (MapKeys_lists_keys w
   ∧ corev1.ImagePullSecrets podSpec = [ {| corev1.Name := "regcred" |} ]
   ∧ "regcred" ≠ ""
   ∧ secrets w "default" "regcred" = inr data
   ∧ data !! corev1.DockerConfigJsonKey = Some (dockerConfigText "myregistry.io" a)
   ∧ plain "myregistry.io" = true
   ∧ plain (Username a) = true
   ∧ plain (Password a) = true)
  ∧ Load w k (example.container "myregistry.io/app:2.0") podSpec
    = ([ev_SecretGet "default" "regcred"],
       Return
         {| Namespace := "default";
            ImagePullSecrets := "regcred";
            RegistryAddress := "https://myregistry.io";
            RegistryName := "myregistry.io";
            RegistryUsername := "u";
            RegistryPassword := "p";
            Image := "myregistry.io/app:2.0" |}).
Proof.
  assert (Hw : MapKeys_lists_keys example.world) by (intros m; reflexivity).
  assert (H : corev1.ImagePullSecrets (example.podSpec ["regcred"])
              = [ {| corev1.Name := "regcred" |} ]
            ∧ "regcred" ≠ ""
            ∧ secrets example.world "default" "regcred"
              = inr {[ corev1.DockerConfigJsonKey := example.pullSecret ]}
            ∧ ({[ corev1.DockerConfigJsonKey := example.pullSecret ]}
               : gmap string string) !! corev1.DockerConfigJsonKey
              = Some (dockerConfigText "myregistry.io"
                        {| Username := "u"; Password := "p" |})).
  { split_and!; try (vm_compute; reflexivity); discriminate. }
  split; [split_and!; try apply H; try exact Hw; reflexivity|].
  destruct H as (H1 & H2 & H3 & H4).
  exact (Load_reads_back_a_written_docker_config example.world (newK8s "default")
           (example.container "myregistry.io/app:2.0") _ _ _ _
           "myregistry.io" {| Username := "u"; Password := "p" |}
           Hw H1 H2 H3 H4 eq_refl eq_refl eq_refl).
Defined.

End texts.

(** ** Where the credentials go *)

Section sessions.
Import Bytes.
#[local] Arguments String.eqb : simpl never.
#[local] Arguments strings.HasPrefix : simpl never.
#[local] Arguments strings.TrimLeft : simpl never.
#[local] Arguments GetImageBlob : simpl never.
#[local] Arguments parseDockerConfig : simpl never.






End sessions.
